(** * Imagify.art backend: the request translator of [main.py]

    A shallow embedding of [parse_resolution], [ASPECT_MAP] and the
    [/api/generate] handler [generate_images], with the parts of Python they
    rest on: [str] as a sequence of code points, [str.strip], the builtin
    [int] applied to a [str], binary64 arithmetic for [int * float] and
    [int(float)], and the decimal formatting of an f-string field. *)

From Stdlib Require Import ZArith NArith List Bool Lia String Ascii FinFun.
From Stdlib Require Import DecimalString DecimalPos DecimalZ SpecFloat.
Import ListNotations.

Local Open Scope Z_scope.

(** ** Python [str]: a sequence of Unicode code points *)

Definition str := list N.

(** An ASCII literal of the source, one code point per character. *)
Definition lit (s : string) : str :=
  List.map N_of_ascii (list_ascii_of_string s).

(** [len(s)] *)
Definition len (s : str) : Z := Z.of_nat (List.length s).

Definition in_range (lo hi c : N) : bool := (N.leb lo c && N.leb c hi)%bool.

(** [str.isspace] on one character (CPython's [_PyUnicode_IsWhitespace]). *)
Definition isspace (c : N) : bool :=
  (in_range 9 13 c || in_range 28 32 c || N.eqb c 133 || N.eqb c 160
   || N.eqb c 5760 || in_range 8192 8202 c || N.eqb c 8232 || N.eqb c 8233
   || N.eqb c 8239 || N.eqb c 8287 || N.eqb c 12288)%bool.

Fixpoint lstrip (s : str) : str :=
  match s with
  | c :: r => if isspace c then lstrip r else s
  | [] => []
  end.

Definition rstrip (s : str) : str := List.rev (lstrip (List.rev s)).

(** [s.strip()] *)
Definition strip (s : str) : str := rstrip (lstrip s).

(** [sep in s] and [s.split(sep)[0]] for a separator [sep] of one character,
    which is what every separator of [parse_resolution] is. *)
Definition contains (sep : N) (s : str) : bool := List.existsb (N.eqb sep) s.

Fixpoint split_head (sep : N) (s : str) : str :=
  match s with
  | [] => []
  | c :: r => if N.eqb sep c then [] else c :: split_head sep r
  end.

(** ** The builtin [int] on a [str] (base 10)

    CPython first maps the string to ASCII
    ([_PyUnicode_TransformDecimalAndSpaceToASCII]): a character below 127 is
    kept, any other white space becomes a blank, any other decimal digit
    becomes its ASCII digit, anything else becomes ['?'].  [PyLong_FromString]
    then skips blanks ([Py_ISSPACE]), reads an optional sign, rejects a leading
    underscore, reads digits separated by single underscores, skips blanks and
    requires the end of the string.  More than [max_str_digits] digits are a
    [ValueError]. *)

(** The code points of the decimal digits zero (Unicode 14, general category
    Nd); each is followed by the digits one to nine. *)
Definition decimal_zeros : list N :=
  [48; 1632; 1776; 1984; 2406; 2534; 2662; 2790; 2918; 3046; 3174; 3302;
   3430; 3558; 3664; 3792; 3872; 4160; 4240; 6112; 6160; 6470; 6608; 6784;
   6800; 6992; 7088; 7232; 7248; 42528; 43216; 43264; 43472; 43504; 43600;
   44016; 65296; 66720; 68912; 69734; 69872; 69942; 70096; 70384; 70736;
   70864; 71248; 71360; 71472; 71904; 72016; 72784; 73040; 73120; 92768;
   92864; 93008; 120782; 120792; 120802; 120812; 120822; 123200; 123632;
   125264; 130032]%N.

(** [Py_UNICODE_TODECIMAL] *)
Definition to_decimal (c : N) : option Z :=
  match List.find (fun z => in_range z (z + 9) c) decimal_zeros with
  | Some z => Some (Z.of_N (c - z))
  | None => None
  end.

Inductive int_char : Type :=
| IDigit (d : Z)
| IBlank
| IPlus
| IMinus
| IUnderscore
| IOther.

Definition int_char_of (c : N) : int_char :=
  if N.ltb c 127 then
    if in_range 48 57 c then IDigit (Z.of_N (c - 48))
    else if (in_range 9 13 c || N.eqb c 32)%bool then IBlank
    else if N.eqb c 43 then IPlus
    else if N.eqb c 45 then IMinus
    else if N.eqb c 95 then IUnderscore
    else IOther
  else if isspace c then IBlank
  else match to_decimal c with
       | Some d => IDigit d
       | None => IOther
       end.

Definition is_blank (c : int_char) : bool :=
  match c with IBlank => true | _ => false end.

Fixpoint skip_blanks (cs : list int_char) : list int_char :=
  match cs with
  | IBlank :: r => skip_blanks r
  | _ => cs
  end.

(** The digit loop: [prev_us] tells whether the previous character was an
    underscore, [acc] is the value read so far and [n] the number of digits. *)
Fixpoint scan_digits (prev_us : bool) (acc : Z) (n : nat) (cs : list int_char)
  : option (Z * nat * list int_char) :=
  match cs with
  | IDigit d :: r => scan_digits false (10 * acc + d) (S n) r
  | IUnderscore :: r => if prev_us then None else scan_digits true acc n r
  | _ => if prev_us then None else Some (acc, n, cs)
  end.

Definition max_str_digits : nat := 4300.

Definition py_int (s : str) : option Z :=
  let cs := skip_blanks (List.map int_char_of s) in
  let '(negative, cs) :=
    match cs with
    | IPlus :: r => (false, r)
    | IMinus :: r => (true, r)
    | _ => (false, cs)
    end in
  match cs with
  | IUnderscore :: _ => None
  | _ =>
    match scan_digits false 0 0 cs with
    | None => None
    | Some (v, n, rest) =>
      if (Nat.eqb n 0 || Nat.ltb max_str_digits n)%bool then None
      else match skip_blanks rest with
           | [] => Some (if negative then - v else v)
           | _ :: _ => None
           end
    end
  end.

(** ** [parse_resolution] *)

(** The multiplication sign of the first separator, U+00D7. *)
Definition times_sign : N := 215%N.

(** [["×", "x", "X", "*"]] *)
Definition separators : list N := [times_sign; 120; 88; 42]%N.

(** The [for] loop of [parse_resolution]: [Some v] when the loop returns [v],
    [None] when it ends, by exhaustion or by [break]. *)
Fixpoint parse_resolution_loop (seps : list N) (res : str) : option Z :=
  match seps with
  | [] => None
  | sep :: seps' =>
    if contains sep res then
      match py_int (split_head sep res) with
      | Some v => Some v
      | None => None
      end
    else parse_resolution_loop seps' res
  end.

Definition parse_resolution (res : str) : Z :=
  match parse_resolution_loop separators res with
  | Some v => v
  | None =>
    match py_int res with
    | Some v => v
    | None => 512
    end
  end.

(** "512×512" *)
Definition default_resolution : str :=
  lit "512" ++ [times_sign] ++ lit "512".

(** ** Exceptions

    A computation either returns a value or raises; [HTTPException] is the
    one the handler raises itself, the arithmetic errors are Python's, and
    [RequestValidationError] is the rejection of a body by the
    [GenerateRequest] schema, before the handler is entered. *)

Inductive exn : Type :=
| HTTPException (status_code : Z) (detail : str)
| OverflowError
| ValueError
| ZeroDivisionError
| RequestValidationError.

Definition result (A : Type) : Type := (A + exn)%type.

Definition ret {A : Type} (a : A) : result A := inl a.
Definition raise {A : Type} (e : exn) : result A := inr e.

Definition bind {A B : Type} (m : result A) (k : A -> result B) : result B :=
  match m with
  | inl a => k a
  | inr e => inr e
  end.

Notation "x <- m ;; k" := (bind m (fun x => k))
  (at level 61, m at next level, right associativity).

Definition fmap {A B : Type} (f : A -> B) (m : result A) : result B :=
  x <- m ;; ret (f x).

(** ** Python [float]: IEEE 754 binary64 *)

Definition prec : Z := 53.
Definition emax : Z := 1024.

(** [float(n)] as [int * float] applies it to the [int] operand: the nearest
    double, ties to even; [OverflowError] when that is not finite. *)
Definition float_of_int (n : Z) : result spec_float :=
  match binary_normalize prec emax n 0 false with
  | S754_infinity _ => raise OverflowError
  | f => ret f
  end.

(** [a / b] on two [int]: the correctly rounded quotient.  For operands that
    are doubles themselves (below 2^53, as every entry of [ASPECT_MAP] is)
    this is the IEEE division of the two converted operands. *)
Definition true_div (a b : Z) : result spec_float :=
  if b =? 0 then raise ZeroDivisionError
  else ret (SFdiv prec emax (binary_normalize prec emax a 0 false)
                            (binary_normalize prec emax b 0 false)).

(** [n * x] for an [int] [n] and a [float] [x] *)
Definition int_mul_float (n : Z) (x : spec_float) : result spec_float :=
  nf <- float_of_int n ;;
  ret (SFmul prec emax nf x).

(** [int(x)]: truncation towards zero *)
Definition int_of_float (x : spec_float) : result Z :=
  match x with
  | S754_zero _ => ret 0
  | S754_finite s m e => ret (cond_Zopp s (Z.shiftl (Zpos m) e))
  | S754_infinity _ => raise OverflowError
  | S754_nan => raise ValueError
  end.

(** ** The request and response models *)

Record GenerateRequest : Type := {
  prompt : str;
  art_type : option str;
  style : option str;
  aspect : option str;
  resolution : option str;
  model : option str;
  count : Z
}.

(** [GenerateResponse(images=...)] *)
Definition GenerateResponse : Type := list str.

(** A surrogate code point, U+D800 to U+DFFF.  A [str] that holds one is
    not well-formed Unicode. *)
Definition is_surrogate (c : N) : bool := in_range 55296 57343 c.

Definition well_formed (s : str) : bool :=
  List.forallb (fun c => negb (is_surrogate c)) s.

(** The [Field] constraints of the schema: [min_length=3] on [prompt], whose
    validator takes the length of the string as Unicode text and so rejects a
    prompt that is not well-formed, and [ge=1] and [le=9] on [count]. *)
Definition schema_valid (r : GenerateRequest) : bool :=
  (well_formed (prompt r) && (3 <=? len (prompt r))
   && (1 <=? count r) && (count r <=? 9))%bool.

(** ** [ASPECT_MAP] *)

Fixpoint str_eqb (a b : str) : bool :=
  match a, b with
  | [], [] => true
  | x :: a', y :: b' => (N.eqb x y && str_eqb a' b')%bool
  | _, _ => false
  end.

Definition ASPECT_MAP : list (str * (Z * Z)) :=
  [ (lit "1:1", (1, 1));
    (lit "16:9", (16, 9));
    (lit "9:16", (9, 16));
    (lit "4:3", (4, 3)) ].

(** [d.get(key, default)] *)
Fixpoint dict_get {V : Type} (d : list (str * V)) (key : str) (default : V) : V :=
  match d with
  | [] => default
  | (k, v) :: d' => if str_eqb k key then v else dict_get d' key default
  end.

(** [o or default] for an [Optional[str]]: [None] and the empty string are
    both false. *)
Definition or_str (o : option str) (default : str) : str :=
  match o with
  | Some (c :: s) => c :: s
  | _ => default
  end.

(** ** The handler *)

(** The f-string field of an [int]: its decimal digits, with a minus sign
    when negative. *)
Definition format_int (z : Z) : str :=
  lit (NilZero.string_of_int (Z.to_int z)).

(** [range(n)] *)
Definition range (n : Z) : list Z :=
  List.map Z.of_nat (List.seq 0 (Z.to_nat n)).

(** The normalisation "so that the smallest side equals [base]": the
    [(width, height)] the handler holds before it builds the URLs. *)
Definition dimensions (base : Z) (rat : Z * Z) : result (Z * Z) :=
  if fst rat >=? snd rat then
    q <- true_div (fst rat) (snd rat) ;;
    x <- int_mul_float base q ;;
    width <- int_of_float x ;;
    ret (width, base)
  else
    q <- true_div (snd rat) (fst rat) ;;
    x <- int_mul_float base q ;;
    height <- int_of_float x ;;
    ret (base, height).

Definition image_url (prompt_clean : str) (width height seed : Z) : str :=
  lit "https://image.pollinations.ai/prompt/" ++ prompt_clean
  ++ lit "?width=" ++ format_int (Z.min width 1536)
  ++ lit "&height=" ++ format_int (Z.min height 1536)
  ++ lit "&seed=" ++ format_int seed
  ++ lit "&nologo=true".

(** The [for i in range(count)] loop, threading the list [images]. *)
Definition build_images (prompt_clean : str) (width height count : Z)
  : list str :=
  List.fold_left
    (fun images i => images ++ [image_url prompt_clean width height (1000 + i)])
    (range count) [].

Definition too_short : str := lit "Prompt is too short.".

Definition generate_images (payload : GenerateRequest)
  : result GenerateResponse :=
  if (match prompt payload with [] => true | _ => false end
      || (len (strip (prompt payload)) <? 3))%bool
  then raise (HTTPException 400 too_short)
  else
    let base := parse_resolution (or_str (resolution payload) default_resolution) in
    let aspect_key := or_str (aspect payload) (lit "1:1") in
    let rat := dict_get ASPECT_MAP aspect_key (1, 1) in
    wh <- dimensions base rat ;;
    let prompt_clean := strip (prompt payload) in
    ret (build_images prompt_clean (fst wh) (snd wh) (count payload)).

(** [POST /api/generate]: the body is validated against the schema, then
    handed to the handler. *)
Definition api_generate (body : GenerateRequest) : result GenerateResponse :=
  if schema_valid body then generate_images body
  else raise RequestValidationError.

Definition a_cat_request : GenerateRequest :=
  {| prompt := lit "a cat"; art_type := None; style := None;
     aspect := Some (lit "16:9"); resolution := Some default_resolution;
     model := Some (lit "Pollination AI"); count := 2 |}.

(** Requests that differ from [r] in one field. *)
Definition with_aspect (r : GenerateRequest) (a : option str) : GenerateRequest :=
  {| prompt := prompt r; art_type := art_type r; style := style r;
     aspect := a; resolution := resolution r; model := model r;
     count := count r |}.

Definition with_resolution (r : GenerateRequest) (res : option str)
  : GenerateRequest :=
  {| prompt := prompt r; art_type := art_type r; style := style r;
     aspect := aspect r; resolution := res; model := model r;
     count := count r |}.

Definition with_count (r : GenerateRequest) (n : Z) : GenerateRequest :=
  {| prompt := prompt r; art_type := art_type r; style := style r;
     aspect := aspect r; resolution := resolution r; model := model r;
     count := n |}.

Definition with_metadata (r : GenerateRequest) (a s m : option str)
  : GenerateRequest :=
  {| prompt := prompt r; art_type := a; style := s;
     aspect := aspect r; resolution := resolution r; model := m;
     count := count r |}.

(** The tokens of the enumerated set, the keys of [ASPECT_MAP]. *)
Definition aspect_tokens : list str := List.map fst ASPECT_MAP.

(** Requests used as examples below. *)
Definition padded_request : GenerateRequest :=
  {| prompt := lit "  a  "; art_type := None; style := None; aspect := None;
     resolution := Some default_resolution;
     model := Some (lit "Pollination AI"); count := 6 |}.

Definition two_letter_request : GenerateRequest :=
  {| prompt := lit "ab"; art_type := None; style := None; aspect := None;
     resolution := Some default_resolution;
     model := Some (lit "Pollination AI"); count := 6 |}.

(** A prompt that starts with the lone surrogate U+D800, and one that holds
    it between two blanks. *)
Definition surrogate_request : GenerateRequest :=
  {| prompt := 55296%N :: lit "abc"; art_type := None; style := None;
     aspect := None; resolution := Some default_resolution;
     model := Some (lit "Pollination AI"); count := 1 |}.

Definition padded_surrogate_request : GenerateRequest :=
  {| prompt := lit " " ++ [55296%N] ++ lit " "; art_type := None;
     style := None; aspect := None; resolution := Some default_resolution;
     model := Some (lit "Pollination AI"); count := 1 |}.

(** A resolution of 310 digits: "1" followed by 309 zeros. *)
Definition huge_request : GenerateRequest :=
  {| prompt := lit "a cat"; art_type := None; style := None; aspect := None;
     resolution := Some (lit "1" ++ List.repeat 48%N 309);
     model := Some (lit "Pollination AI"); count := 1 |}.

(** ** Notions used in the proofs *)

(** The digits [int] reads are not negative. *)
Definition digit_ok (c : int_char) : Prop :=
  match c with
  | IDigit d => 0 <= d
  | _ => True
  end.

(** [m / 2^k] rounded to the nearest integer, ties to even. *)
Definition rne (m k : Z) : Z :=
  let q := m / 2 ^ k in
  let r := m mod 2 ^ k in
  if 2 * r <? 2 ^ k then q
  else if 2 ^ k <? 2 * r then q + 1
  else if Z.even q then q else q + 1.

(** What a shift record holds after [m] was shifted right by [k] bits: the
    quotient, the round bit and the sticky bit. *)
Definition shr_inv (m k : Z) (mrs : shr_record) : Prop :=
  shr_m mrs = m / 2 ^ k
  /\ (shr_r mrs = true <-> 2 ^ k <= 2 * (m mod 2 ^ k))
  /\ (shr_s mrs = true <-> (2 * (m mod 2 ^ k)) mod 2 ^ k <> 0).

(** The ratios [ASPECT_MAP.get] can return. *)
Definition ratios : list (Z * Z) := [(1, 1); (16, 9); (9, 16); (4, 3)].

(** The three quotients the handler can form, each with the mantissa of its
    double: 1/1, 16/9 and 4/3, all with exponent -52. *)
Definition quotients : list (Z * Z * positive) :=
  [ (1, 1, 4503599627370496%positive);
    (16, 9, 8006399337547548%positive);
    (4, 3, 6004799503160661%positive) ].

Ltac quotient_cases H :=
  cbn [In quotients] in H;
  repeat (destruct H as [H|H]; [injection H as <- <- <-|]);
  [..|contradiction].

(** ** The diagnostic endpoint [/test] and the port of the server *)

(** An exception as the endpoint sees it: whether it is an [ImportError],
    and [str(e)]. *)
Record py_exception : Type := {
  is_import_error : bool;
  exc_text : str
}.

(** [db.name]: absent ([hasattr] is false), a value, or an access that raises
    something else than [AttributeError]. *)
Inductive attribute : Type :=
| NoAttribute
| AttributeValue (v : str)
| AttributeRaises (e : py_exception).

(** The [db] object of the [database] module, as far as the endpoint uses
    it: [db.name] and [db.list_collection_names()]. *)
Record database_handle : Type := {
  name_attribute : attribute;
  list_collection_names : list str + py_exception
}.

(** [from database import db]: it raises, or binds [db], possibly to
    [None]. *)
Inductive import_outcome : Type :=
| ImportRaises (e : py_exception)
| Imported (db : option database_handle).

(** What the endpoint reads from outside: the import and the two environment
    variables, [None] when unset. *)
Record environment : Type := {
  import_db : import_outcome;
  env_DATABASE_URL : option str;
  env_DATABASE_NAME : option str
}.

(** The [response] dict. *)
Record report : Type := {
  backend : str;
  database : str;
  database_url : option str;
  database_name : option str;
  connection_status : str;
  collections : list str
}.

Definition set_database (r : report) (v : str) : report :=
  {| backend := backend r; database := v; database_url := database_url r;
     database_name := database_name r;
     connection_status := connection_status r; collections := collections r |}.

Definition set_database_url (r : report) (v : option str) : report :=
  {| backend := backend r; database := database r; database_url := v;
     database_name := database_name r;
     connection_status := connection_status r; collections := collections r |}.

Definition set_database_name (r : report) (v : option str) : report :=
  {| backend := backend r; database := database r;
     database_url := database_url r; database_name := v;
     connection_status := connection_status r; collections := collections r |}.

Definition set_connection_status (r : report) (v : str) : report :=
  {| backend := backend r; database := database r;
     database_url := database_url r; database_name := database_name r;
     connection_status := v; collections := collections r |}.

Definition set_collections (r : report) (v : list str) : report :=
  {| backend := backend r; database := database r;
     database_url := database_url r; database_name := database_name r;
     connection_status := connection_status r; collections := v |}.

(** The marks of the messages: U+2705, U+274C, and U+26A0 U+FE0F. *)
Definition check_mark : str := [9989%N].

Definition cross_mark : str := [10060%N].

Definition warning_sign : str := [9888%N; 65039%N].

Definition initial_report : report :=
  {| backend := check_mark ++ lit " Running";
     database := cross_mark ++ lit " Not Available";
     database_url := None;
     database_name := None;
     connection_status := lit "Not Connected";
     collections := [] |}.

Definition working_text : str := check_mark ++ lit " Connected & Working".

Definition set_text : str := check_mark ++ lit " Set".

Definition not_set_text : str := cross_mark ++ lit " Not Set".

(** The outer [try] block: the dict as the block leaves it, and the
    exception that ended it, if one did. *)
Definition probe_database (env : environment) (response : report)
  : report * option py_exception :=
  match import_db env with
  | ImportRaises e => (response, Some e)
  | Imported None =>
    (set_database response
       (warning_sign ++ lit "  Available but not initialized"), None)
  | Imported (Some db) =>
    let response := set_database response (check_mark ++ lit " Available") in
    let response :=
      set_database_url response (Some (check_mark ++ lit " Configured")) in
    match name_attribute db with
    | AttributeRaises e => (response, Some e)
    | a =>
      let response :=
        set_database_name response
          (Some (match a with
                 | AttributeValue v => v
                 | _ => check_mark ++ lit " Connected"
                 end)) in
      let response := set_connection_status response (lit "Connected") in
      match list_collection_names db with
      | inl names =>
        let response := set_collections response (List.firstn 10 names) in
        (set_database response working_text, None)
      | inr e =>
        (set_database response
           (warning_sign ++ lit "  Connected but Error: "
            ++ List.firstn 50 (exc_text e)), None)
      end
    end
  end.

(** [bool(os.getenv(k))] *)
Definition env_set (v : option str) : bool :=
  match v with
  | Some (_ :: _) => true
  | _ => false
  end.

Definition test_database (env : environment) : report :=
  let '(response, raised) := probe_database env initial_report in
  let response :=
    match raised with
    | None => response
    | Some e =>
      if is_import_error e then
        set_database response
          (cross_mark
           ++ lit " Database module not found (run enable-database first)")
      else
        set_database response
          (cross_mark ++ lit " Error: " ++ List.firstn 50 (exc_text e))
    end in
  let response :=
    set_database_url response
      (Some (if env_set (env_DATABASE_URL env) then set_text else not_set_text)) in
  set_database_name response
    (Some (if env_set (env_DATABASE_NAME env) then set_text else not_set_text)).

(** [int(os.getenv("PORT", 8000))] *)
Definition startup_port (env_PORT : option str) : result Z :=
  match env_PORT with
  | None => ret 8000
  | Some s =>
    match py_int s with
    | Some v => ret v
    | None => raise ValueError
    end
  end.

(** The request [r] with another prompt. *)
Definition with_prompt (r : GenerateRequest) (p : str) : GenerateRequest :=
  {| prompt := p; art_type := art_type r; style := style r;
     aspect := aspect r; resolution := resolution r; model := model r;
     count := count r |}.

(** More requests and an environment used as examples. *)
Definition wide_request : GenerateRequest :=
  {| prompt := lit "a cat"; art_type := None; style := None;
     aspect := Some (lit "16:9"); resolution := Some (lit "4096x2160");
     model := None; count := 1 |}.

Definition listing_environment : environment :=
  {| import_db :=
       Imported (Some {| name_attribute := NoAttribute;
                         list_collection_names :=
                           inl (List.map (fun c => [c]) (List.repeat 97%N 12)) |});
     env_DATABASE_URL := Some (lit "mongodb://localhost");
     env_DATABASE_NAME := Some [] |}.

(** ** Further notions used in the proofs *)

(** The digits of a decimal numeral, most significant first. *)
Fixpoint uint_digits (d : Decimal.uint) : list N :=
  match d with
  | Decimal.Nil => []
  | Decimal.D0 d => 0%N :: uint_digits d
  | Decimal.D1 d => 1%N :: uint_digits d
  | Decimal.D2 d => 2%N :: uint_digits d
  | Decimal.D3 d => 3%N :: uint_digits d
  | Decimal.D4 d => 4%N :: uint_digits d
  | Decimal.D5 d => 5%N :: uint_digits d
  | Decimal.D6 d => 6%N :: uint_digits d
  | Decimal.D7 d => 7%N :: uint_digits d
  | Decimal.D8 d => 8%N :: uint_digits d
  | Decimal.D9 d => 9%N :: uint_digits d
  end.

(** One step of the digit loop of [int]. *)
Definition push_digit (acc : Z) (x : N) : Z := 10 * acc + Z.of_N x.

(** Both dimensions negated. *)
Definition neg_pair (wh : Z * Z) : Z * Z := (- fst wh, - snd wh).

(** Width and height exchanged. *)
Definition swap_pair (wh : Z * Z) : Z * Z := (snd wh, fst wh).

(** A string of white space only. *)
Definition all_space (s : str) : Prop := Forall (fun c => isspace c = true) s.

(** Projections of an updated report. *)
Ltac report_simpl :=
  cbn [backend database database_url database_name connection_status
       collections set_database set_database_url set_database_name
       set_connection_status set_collections initial_report].

(** Two messages that differ in their first character. *)
Ltac head_clash H :=
  apply (f_equal (@List.hd N 0%N)) in H; vm_compute in H; discriminate.

(** * Properties *)

(** ** The model on concrete inputs *)

Example parse_default : parse_resolution default_resolution = 512.
Proof. reflexivity. Qed.

Example parse_1024x768 : parse_resolution (lit "1024x768") = 1024.
Proof. reflexivity. Qed.

Example int_blank_underscore : py_int (lit " +1_000 ") = Some 1000.
Proof. reflexivity. Qed.

Example int_arabic_indic : py_int [1635; 1636]%N = Some 34.
Proof. reflexivity. Qed.

Example int_hex_like : py_int (lit "0x10") = None.
Proof. reflexivity. Qed.

Example int_double_underscore : py_int (lit "1__0") = None.
Proof. reflexivity. Qed.

Example int_too_many_digits :
  py_int (List.repeat 49%N 4300) <> None /\ py_int (List.repeat 49%N 4301) = None.
Proof. split; vm_compute; [discriminate | reflexivity]. Qed.

Example strip_blanks : strip (lit "  a cat	 ") = lit "a cat".
Proof. reflexivity. Qed.

Example float_largest_int :
  float_of_int (2 ^ 1024 - 2 ^ 970) = raise OverflowError
  /\ float_of_int (2 ^ 1024 - 2 ^ 970 - 1)
     = ret (S754_finite false 9007199254740991 971).
Proof. split; vm_compute; reflexivity. Qed.

Example product_overflows :
  dimensions (2 ^ 1024 - 2 ^ 970 - 1) (16, 9) = raise OverflowError.
Proof. vm_compute. reflexivity. Qed.

Example negative_base : dimensions (-7) (16, 9) = ret (-12, -7).
Proof. vm_compute. reflexivity. Qed.

Example surrogate_prompt_rejected :
  3 <= len (strip (prompt surrogate_request))
  /\ api_generate surrogate_request = raise RequestValidationError.
Proof. split; vm_compute; [discriminate | reflexivity]. Qed.

(** ** Strings and lists *)

Lemma contains_In (sep : N) (s : str) : contains sep s = true <-> In sep s.
Proof.
  unfold contains. rewrite existsb_exists. split.
  - intros (c & Hc & E). apply N.eqb_eq in E. now subst.
  - intros H. exists sep. split; [assumption | apply N.eqb_refl].
Qed.

Lemma contains_not_In (sep : N) (s : str) : contains sep s = false <-> ~ In sep s.
Proof.
  rewrite <- contains_In. destruct (contains sep s); intuition congruence.
Qed.

Lemma split_head_app (sep : N) (left right : str) :
  ~ In sep left -> split_head sep (left ++ sep :: right) = left.
Proof.
  induction left as [|c left IH]; simpl; intros H.
  - now rewrite N.eqb_refl.
  - destruct (N.eqb_spec sep c) as [->|_].
    + elim H. now left.
    + f_equal. apply IH. intros Hin. apply H. now right.
Qed.

Lemma str_eqb_eq (a b : str) : str_eqb a b = true <-> a = b.
Proof.
  revert b. induction a as [|x a IH]; intros [|y b]; simpl; try easy.
  rewrite andb_true_iff, N.eqb_eq, IH. split.
  - now intros [-> ->].
  - now intros [= -> ->].
Qed.

Lemma dict_get_absent {V : Type} (d : list (str * V)) (key : str) (default : V) :
  ~ In key (List.map fst d) -> dict_get d key default = default.
Proof.
  induction d as [|[k v] d IH]; simpl; intros H; [reflexivity|].
  destruct (str_eqb k key) eqn:E.
  - apply str_eqb_eq in E. elim H. now left.
  - apply IH. intros Hin. apply H. now right.
Qed.

Lemma fold_append_map {A B : Type} (f : A -> B) (l : list A) (acc : list B) :
  List.fold_left (fun images i => images ++ [f i]) l acc = acc ++ List.map f l.
Proof.
  revert acc. induction l as [|a l IH]; intros acc; simpl.
  - now rewrite app_nil_r.
  - rewrite IH, <- app_assoc. reflexivity.
Qed.

Lemma build_images_map (p : str) (w h c : Z) :
  build_images p w h c
  = List.map (fun i => image_url p w h (1000 + i)) (range c).
Proof. unfold build_images. now rewrite fold_append_map. Qed.

Lemma range_length (n : Z) : List.length (range n) = Z.to_nat n.
Proof. unfold range. now rewrite length_map, length_seq. Qed.

Lemma range_nth (n : Z) (i : nat) :
  (i < Z.to_nat n)%nat -> List.nth_error (range n) i = Some (Z.of_nat i).
Proof.
  intros H. unfold range. rewrite nth_error_map.
  rewrite nth_error_seq. apply Nat.ltb_lt in H. now rewrite H.
Qed.

Lemma range_firstn (n m : Z) :
  n <= m -> List.firstn (Z.to_nat n) (range m) = range n.
Proof.
  intros H. unfold range. rewrite firstn_map. f_equal.
  replace (Z.to_nat m) with (Z.to_nat n + (Z.to_nat m - Z.to_nat n))%nat by lia.
  rewrite seq_app, firstn_app, length_seq, Nat.sub_diag, firstn_O, app_nil_r.
  apply firstn_all2. rewrite length_seq. lia.
Qed.

(** ** The decimal field of an f-string determines the integer *)

Lemma lit_inj (s t : string) : lit s = lit t -> s = t.
Proof.
  unfold lit. intros H.
  rewrite <- (string_of_list_ascii_of_string s),
          <- (string_of_list_ascii_of_string t).
  f_equal. revert H.
  generalize (list_ascii_of_string s) (list_ascii_of_string t).
  induction l as [|a l IH]; intros [|b l']; simpl; try easy.
  intros [= Hab Hl]. f_equal; [|now apply IH].
  now rewrite <- (ascii_N_embedding a), <- (ascii_N_embedding b), Hab.
Qed.

Lemma to_int_not_nil (z : Z) :
  Z.to_int z <> Decimal.Pos Decimal.Nil /\ Z.to_int z <> Decimal.Neg Decimal.Nil.
Proof.
  destruct z as [|p|p]; simpl; split; try easy;
    intros [= H]; now apply (Unsigned.to_uint_nonnil p).
Qed.

Lemma format_int_inj (a b : Z) : format_int a = format_int b -> a = b.
Proof.
  unfold format_int. intros H. apply lit_inj in H.
  apply (f_equal NilZero.int_of_string) in H.
  destruct (to_int_not_nil a) as [? ?], (to_int_not_nil b) as [? ?].
  rewrite !NilZero.isi in H by assumption.
  injection H as H. apply (f_equal Z.of_int) in H.
  now rewrite !DecimalZ.of_to in H.
Qed.

Lemma image_url_seed_inj (p : str) (w h s s' : Z) :
  image_url p w h s = image_url p w h s' -> s = s'.
Proof.
  unfold image_url. intros H.
  repeat (apply app_inv_head in H).
  apply app_inv_tail in H. now apply format_int_inj.
Qed.

(** ** [parse_resolution] *)

Lemma loop_no_separator (seps : list N) (res : str) :
  (forall s, In s seps -> ~ In s res) -> parse_resolution_loop seps res = None.
Proof.
  induction seps as [|sep seps IH]; simpl; intros H; [reflexivity|].
  assert (E : contains sep res = false)
    by (apply contains_not_In, H; now left).
  rewrite E. apply IH. intros s Hs. apply H. now right.
Qed.

Lemma loop_first_separator (pre post : list N) (sep : N) (res : str) :
  (forall s, In s pre -> ~ In s res) -> In sep res ->
  parse_resolution_loop (pre ++ sep :: post) res = py_int (split_head sep res).
Proof.
  induction pre as [|s0 pre IH]; simpl; intros Hpre Hsep.
  - apply contains_In in Hsep. rewrite Hsep. now destruct (py_int _).
  - assert (E : contains s0 res = false)
      by (apply contains_not_In, Hpre; now left).
    rewrite E. apply IH; [|assumption]. intros s Hs. apply Hpre. now right.
Qed.

(** What the loop returns was read left of a separator of the string. *)
Lemma loop_returns (seps : list N) (res : str) (v : Z) :
  parse_resolution_loop seps res = Some v ->
  exists sep, In sep seps /\ In sep res /\ py_int (split_head sep res) = Some v.
Proof.
  induction seps as [|sep seps IH]; simpl; [easy|].
  destruct (contains sep res) eqn:E.
  - destruct (py_int (split_head sep res)) eqn:P; [|easy].
    intros [= ->]. exists sep. apply contains_In in E. auto.
  - intros H. destruct (IH H) as (s & ? & ? & ?). exists s. auto.
Qed.

Lemma split_head_decompose (sep : N) (res : str) :
  In sep res ->
  exists right, res = split_head sep res ++ sep :: right
                /\ ~ In sep (split_head sep res).
Proof.
  induction res as [|c res IH]; simpl; [easy|].
  intros H. destruct (N.eqb_spec sep c) as [->|Hne].
  - exists res. split; [reflexivity | easy].
  - destruct H as [->|H]; [easy|].
    destruct (IH H) as (right & E & Hn). exists right. split.
    + simpl. now f_equal.
    + simpl. intros [->|Hin]; [easy | now apply Hn].
Qed.

(** ** The sign of what [int] reads *)

Lemma int_char_of_digit_ok (c : N) : digit_ok (int_char_of c).
Proof.
  unfold int_char_of.
  repeat match goal with
         | |- digit_ok (if ?b then _ else _) => destruct b
         | |- digit_ok (match ?o with Some _ => _ | None => _ end) =>
           destruct o eqn:?
         end; simpl; try exact I; try lia.
  unfold to_decimal in *.
  destruct (find _ decimal_zeros); [|discriminate].
  match goal with H : Some _ = Some _ |- _ => injection H as <- end. lia.
Qed.

Lemma int_char_of_minus (c : N) : int_char_of c = IMinus -> c = 45%N.
Proof.
  unfold int_char_of.
  destruct (N.ltb c 127).
  - destruct (in_range 48 57 c); [discriminate|].
    destruct (in_range 9 13 c || N.eqb c 32)%bool; [discriminate|].
    destruct (N.eqb c 43); [discriminate|].
    destruct (N.eqb_spec c 45); [easy|].
    now destruct (N.eqb c 95).
  - destruct (isspace c); [discriminate|]. now destruct (to_decimal c).
Qed.

Lemma skip_blanks_Forall (P : int_char -> Prop) (cs : list int_char) :
  Forall P cs -> Forall P (skip_blanks cs).
Proof.
  induction 1 as [|c cs Hc Hcs IH]; simpl; [constructor|].
  destruct c; try (now constructor). exact IH.
Qed.

Lemma scan_digits_nonneg (cs : list int_char) :
  Forall digit_ok cs ->
  forall prev_us acc n v k rest,
    0 <= acc -> scan_digits prev_us acc n cs = Some (v, k, rest) -> 0 <= v.
Proof.
  induction 1 as [|c cs Hc Hcs IH]; intros prev_us acc n v k rest Hacc;
    cbn [scan_digits].
  - destruct prev_us; [discriminate|]. now intros [= <- _ _].
  - destruct c; simpl in Hc;
      try (destruct prev_us; [discriminate|]; now intros [= <- _ _]).
    + intros H. eapply IH; [|exact H]. lia.
    + destruct prev_us; [discriminate|]. intros H. eapply IH; [|exact H]. lia.
Qed.

Lemma py_int_nonneg (s : str) (v : Z) :
  ~ In 45%N s -> py_int s = Some v -> 0 <= v.
Proof.
  intros Hminus. unfold py_int.
  assert (Hok : Forall digit_ok (skip_blanks (List.map int_char_of s))).
  { apply skip_blanks_Forall, Forall_forall. intros c Hc.
    apply in_map_iff in Hc. destruct Hc as (x & <- & _).
    apply int_char_of_digit_ok. }
  assert (Hnm : Forall (fun c => c <> IMinus)
                       (skip_blanks (List.map int_char_of s))).
  { apply skip_blanks_Forall, Forall_forall. intros c Hc ->.
    apply in_map_iff in Hc. destruct Hc as (x & Hx & Hin).
    apply int_char_of_minus in Hx. now subst. }
  destruct (skip_blanks (List.map int_char_of s)) as [|c cs] eqn:E.
  - simpl. discriminate.
  - assert (Hcs : Forall digit_ok cs) by now inversion Hok.
    assert (Hc : c <> IMinus) by now inversion Hnm.
    assert (Hgen : forall l, Forall digit_ok l ->
              match l with
              | IUnderscore :: _ => None
              | _ => match scan_digits false 0 0 l with
                     | None => None
                     | Some (v0, n, rest) =>
                       if (Nat.eqb n 0 || Nat.ltb max_str_digits n)%bool
                       then None
                       else match skip_blanks rest with
                            | [] => Some v0
                            | _ :: _ => None
                            end
                     end
              end = Some v -> 0 <= v).
    { intros l Hl Hv.
      assert (Hs : match scan_digits false 0 0 l with
                   | None => None
                   | Some (v0, n, rest) =>
                     if (Nat.eqb n 0 || Nat.ltb max_str_digits n)%bool
                     then None
                     else match skip_blanks rest with
                          | [] => Some v0
                          | _ :: _ => None
                          end
                   end = Some v).
      { destruct l as [|[] l']; try exact Hv. discriminate. }
      destruct (scan_digits false 0 0 l) as [[[v0 n] rest]|] eqn:S;
        [|discriminate].
      destruct (Nat.eqb n 0 || Nat.ltb max_str_digits n)%bool; [discriminate|].
      destruct (skip_blanks rest); [|discriminate].
      injection Hs as <-.
      now apply (scan_digits_nonneg l Hl false 0 0%nat v0 n rest). }
    destruct c; cbv beta iota; try (now elim Hc);
      first [apply (Hgen _ Hok) | apply (Hgen _ Hcs)].
Qed.

Lemma split_head_incl (sep c : N) (s : str) : In c (split_head sep s) -> In c s.
Proof.
  induction s as [|x s IH]; simpl; [easy|].
  destruct (N.eqb sep x); simpl; [easy|]. intros [->|H]; auto.
Qed.

(** C4. A resolution string that contains a separator, the first one in the
    preference order "×", "x", "X", "*" that it contains being [sep], and
    whose part left of the first [sep] is read by [int] as [v], is parsed to
    [v] exactly; a string on which every attempt fails (no separator and not
    an integer, or the left part not an integer and the whole string not an
    integer) is parsed to 512. *)
Theorem parse_resolution_spec (res : str) :
  (forall pre sep post left right v,
      separators = pre ++ sep :: post ->
      (forall s, In s pre -> ~ In s res) ->
      res = left ++ sep :: right -> ~ In sep left ->
      py_int left = Some v ->
      parse_resolution res = v)
  /\ ((forall s, In s separators -> ~ In s res) ->
      py_int res = None ->
      parse_resolution res = 512)
  /\ (forall pre sep post left right,
      separators = pre ++ sep :: post ->
      (forall s, In s pre -> ~ In s res) ->
      res = left ++ sep :: right -> ~ In sep left ->
      py_int left = None -> py_int res = None ->
      parse_resolution res = 512).
Proof.
  unfold parse_resolution. repeat split.
  - intros pre sep post left right v Hseps Hpre Hres Hleft Hv.
    rewrite Hseps, loop_first_separator; [|assumption|].
    + subst res. rewrite split_head_app by assumption. now rewrite Hv.
    + subst res. apply in_or_app. right. now left.
  - intros Hnone Hint. now rewrite loop_no_separator, Hint.
  - intros pre sep post left right Hseps Hpre Hres Hleft Hl Hint.
    rewrite Hseps, loop_first_separator; [|assumption|].
    + subst res. rewrite split_head_app by assumption.
      rewrite Hl. now rewrite Hint.
    + subst res. apply in_or_app. right. now left.
Qed.

Lemma parse_resolution_spec_witness :
  parse_resolution (lit "1024x768") = 1024
  /\ parse_resolution (lit "large") = 512
  /\ parse_resolution (lit "wide*1024") = 512.
Proof.
  split; [|split].
  - apply (proj1 (parse_resolution_spec (lit "1024x768"))
                 [times_sign] 120%N [88; 42]%N (lit "1024") (lit "768") 1024).
    + reflexivity.
    + intros s [<-|[]]. vm_compute. intuition discriminate.
    + reflexivity.
    + vm_compute. intuition discriminate.
    + reflexivity.
  - apply (proj1 (proj2 (parse_resolution_spec (lit "large")))).
    + intros s Hs. vm_compute in Hs. vm_compute.
      intuition (subst; discriminate).
    + reflexivity.
  - apply (proj2 (proj2 (parse_resolution_spec (lit "wide*1024")))
                 [times_sign; 120; 88]%N 42%N [] (lit "wide") (lit "1024")).
    + reflexivity.
    + intros s Hs. vm_compute in Hs. vm_compute.
      intuition (subst; discriminate).
    + reflexivity.
    + vm_compute. intuition discriminate.
    + reflexivity.
    + reflexivity.
Defined.

(** C5, as the code has it.  [parse_resolution] is total: it returns an
    integer on every string and raises nothing.  The integer is 512, or what
    [int] reads from the whole string, or what it reads from the part left of
    a separator; it is not negative when the string has no minus sign, and
    nothing keeps it from being zero or negative otherwise. *)
Theorem parse_resolution_total (res : str) :
  (parse_resolution res = 512
   \/ py_int res = Some (parse_resolution res)
   \/ exists sep left right,
        In sep separators /\ res = left ++ sep :: right /\ ~ In sep left
        /\ py_int left = Some (parse_resolution res))
  /\ (~ In 45%N res -> 0 <= parse_resolution res).
Proof.
  unfold parse_resolution. split.
  - destruct (parse_resolution_loop separators res) as [v|] eqn:L.
    + right. right. apply loop_returns in L.
      destruct L as (sep & Hsep & Hin & Hv).
      destruct (split_head_decompose sep res Hin) as (right & E & Hn).
      exists sep, (split_head sep res), right. auto.
    + destruct (py_int res) as [v|] eqn:P; auto.
  - intros Hminus.
    destruct (parse_resolution_loop separators res) as [v|] eqn:L.
    + apply loop_returns in L. destruct L as (sep & _ & _ & Hv).
      apply (py_int_nonneg (split_head sep res)); [|assumption].
      intros H. apply Hminus. now apply split_head_incl in H.
    + destruct (py_int res) as [v|] eqn:P; [|lia].
      now apply (py_int_nonneg res).
Qed.

Lemma parse_resolution_total_witness :
  0 <= parse_resolution (lit "1024x768").
Proof.
  apply (proj2 (parse_resolution_total (lit "1024x768"))).
  vm_compute. intuition discriminate.
Defined.

(** C5 as stated fails: the base size read from "0x0" is zero and the one
    read from "-5" is negative. *)
Lemma parse_resolution_not_positive :
  parse_resolution (lit "0x0") = 0 /\ parse_resolution (lit "-5") = -5
  /\ ~ (forall res, 0 < parse_resolution res).
Proof.
  split; [reflexivity|]. split; [reflexivity|].
  intros H. specialize (H (lit "0x0")). vm_compute in H. discriminate.
Qed.

(** ** The handler *)

Lemma generate_images_short (r : GenerateRequest) :
  len (strip (prompt r)) < 3 ->
  generate_images r = raise (HTTPException 400 too_short).
Proof.
  intros H. unfold generate_images.
  apply Z.ltb_lt in H. rewrite H. now rewrite orb_true_r.
Qed.

Lemma generate_images_long (r : GenerateRequest) :
  3 <= len (strip (prompt r)) ->
  generate_images r
  = wh <- dimensions
            (parse_resolution (or_str (resolution r) default_resolution))
            (dict_get ASPECT_MAP (or_str (aspect r) (lit "1:1")) (1, 1)) ;;
    ret (build_images (strip (prompt r)) (fst wh) (snd wh) (count r)).
Proof.
  intros H. unfold generate_images.
  destruct (prompt r) as [|c s] eqn:E.
  - vm_compute in H. now elim H.
  - apply Z.ltb_ge in H. now rewrite H.
Qed.

Lemma schema_valid_iff (r : GenerateRequest) :
  schema_valid r = true
  <-> well_formed (prompt r) = true /\ 3 <= len (prompt r) /\ 1 <= count r <= 9.
Proof.
  unfold schema_valid. rewrite !andb_true_iff, !Z.leb_le. intuition lia.
Qed.

(** C3. For prompt "a cat", aspect "16:9", resolution "512×512" and count 2
    the base size is 512, the ratio (16, 9), the height 512 and the width
    910, the floor of 512 * 16 / 9; the response is the two URLs with
    [width=910&height=512] and the seeds 1000 and 1001, in that order. *)
Theorem a_cat_example :
  parse_resolution (or_str (resolution a_cat_request) default_resolution) = 512
  /\ dict_get ASPECT_MAP (or_str (aspect a_cat_request) (lit "1:1")) (1, 1) = (16, 9)
  /\ dimensions 512 (16, 9) = ret (910, 512)
  /\ 512 * 16 / 9 = 910
  /\ api_generate a_cat_request
     = ret [ lit "https://image.pollinations.ai/prompt/a cat?width=910&height=512&seed=1000&nologo=true";
             lit "https://image.pollinations.ai/prompt/a cat?width=910&height=512&seed=1001&nologo=true" ].
Proof. repeat split; vm_compute; reflexivity. Qed.

(** C6, as the code has it.  A request whose prompt, trimmed, has fewer than
    3 characters never gets URLs: the handler raises HTTP 400 with the detail
    "Prompt is too short.", and that is the answer of the endpoint when the
    body passes the schema, that is when the untrimmed prompt is well-formed
    Unicode of at least 3 characters and the count is in [1, 9]; a body whose
    prompt is not well-formed or has fewer than 3 characters untrimmed, or
    whose count is outside [1, 9], is rejected by the schema before the
    handler runs. *)
Theorem short_prompt_rejected (r : GenerateRequest) :
  (len (strip (prompt r)) < 3 ->
     generate_images r = raise (HTTPException 400 too_short)
     /\ (well_formed (prompt r) = true ->
         3 <= len (prompt r) -> 1 <= count r <= 9 ->
         api_generate r = raise (HTTPException 400 too_short))
     /\ (forall images, api_generate r <> ret images))
  /\ (well_formed (prompt r) = false
      \/ len (prompt r) < 3 \/ count r < 1 \/ 9 < count r ->
      api_generate r = raise RequestValidationError).
Proof.
  split.
  - intros H. pose proof (generate_images_short r H) as G.
    split; [exact G|]. split.
    + intros Hw Hp Hc. unfold api_generate.
      now rewrite (proj2 (schema_valid_iff r) (conj Hw (conj Hp Hc))).
    + intros images. unfold api_generate.
      destruct (schema_valid r); [rewrite G|]; discriminate.
  - intros H. unfold api_generate.
    destruct (schema_valid r) eqn:V; [|reflexivity].
    apply schema_valid_iff in V. destruct V as (Hw & Hp & Hc).
    destruct H as [H|H]; [congruence|lia].
Qed.

Lemma short_prompt_rejected_witness :
  api_generate padded_request = raise (HTTPException 400 too_short)
  /\ api_generate (with_count padded_request 10) = raise RequestValidationError
  /\ api_generate padded_surrogate_request = raise RequestValidationError.
Proof.
  split; [|split].
  - apply (proj1 (short_prompt_rejected padded_request)); vm_compute;
      intuition discriminate.
  - apply (proj2 (short_prompt_rejected (with_count padded_request 10))).
    right. right. right. reflexivity.
  - apply (proj2 (short_prompt_rejected padded_surrogate_request)).
    left. reflexivity.
Defined.

(** C6 as stated fails: a prompt of two characters is short after trimming,
    yet the endpoint does not answer with the handler's HTTP 400; the schema
    rejects the body first. *)
Lemma short_prompt_not_http_400 :
  len (strip (prompt two_letter_request)) < 3
  /\ api_generate two_letter_request = raise RequestValidationError
  /\ api_generate two_letter_request <> raise (HTTPException 400 too_short).
Proof. repeat split. discriminate. Qed.

Lemma api_generate_congr (p q : GenerateRequest) :
  schema_valid p = schema_valid q -> generate_images p = generate_images q ->
  api_generate p = api_generate q.
Proof. unfold api_generate. now intros -> ->. Qed.

Lemma unknown_ratio (tok : str) :
  ~ In tok aspect_tokens ->
  dict_get ASPECT_MAP (or_str (Some tok) (lit "1:1")) (1, 1) = (1, 1).
Proof.
  intros H. destruct tok as [|c s]; [reflexivity|].
  cbn [or_str]. now apply dict_get_absent.
Qed.

(** C7. For an aspect token outside {"1:1", "16:9", "9:16", "4:3"}, with
    the prompt, the resolution and the count fixed, the ratio, the computed
    dimensions and the whole outcome of the handler are those of the token
    "1:1": the unknown token raises nothing of its own. *)
Theorem unknown_aspect_as_square (r : GenerateRequest) (tok : str) :
  ~ In tok aspect_tokens ->
  dict_get ASPECT_MAP (or_str (Some tok) (lit "1:1")) (1, 1)
  = dict_get ASPECT_MAP (or_str (Some (lit "1:1")) (lit "1:1")) (1, 1)
  /\ (forall base,
        dimensions base (dict_get ASPECT_MAP (or_str (Some tok) (lit "1:1")) (1, 1))
        = dimensions base (dict_get ASPECT_MAP (lit "1:1") (1, 1)))
  /\ generate_images (with_aspect r (Some tok))
     = generate_images (with_aspect r (Some (lit "1:1")))
  /\ api_generate (with_aspect r (Some tok))
     = api_generate (with_aspect r (Some (lit "1:1"))).
Proof.
  intros H. pose proof (unknown_ratio tok H) as E.
  assert (G : generate_images (with_aspect r (Some tok))
              = generate_images (with_aspect r (Some (lit "1:1")))).
  { unfold generate_images. cbn [prompt resolution aspect count with_aspect].
    now rewrite E. }
  split; [now rewrite E|]. split; [intros base; now rewrite E|].
  split; [exact G|]. now apply api_generate_congr.
Qed.

Lemma unknown_aspect_as_square_witness :
  api_generate (with_aspect a_cat_request (Some (lit "3:2")))
  = api_generate (with_aspect a_cat_request (Some (lit "1:1"))).
Proof.
  apply (unknown_aspect_as_square a_cat_request (lit "3:2")).
  vm_compute. intuition discriminate.
Defined.

(** C8. The handler is a function of prompt, aspect, resolution and count
    alone: two requests that agree on these four get the same outcome, URL
    for URL and character for character, whatever their [art_type], [style]
    and [model]. *)
Theorem metadata_irrelevant (p q : GenerateRequest) :
  prompt p = prompt q -> aspect p = aspect q ->
  resolution p = resolution q -> count p = count q ->
  generate_images p = generate_images q /\ api_generate p = api_generate q.
Proof.
  intros Hp Ha Hr Hc.
  assert (G : generate_images p = generate_images q)
    by (unfold generate_images; now rewrite Hp, Ha, Hr, Hc).
  split; [exact G|]. apply api_generate_congr; [|exact G].
  unfold schema_valid. now rewrite Hp, Hc.
Qed.

Lemma metadata_irrelevant_witness :
  api_generate a_cat_request
  = api_generate (with_metadata a_cat_request (Some (lit "oil painting"))
                                (Some (lit "baroque")) None).
Proof.
  apply (metadata_irrelevant a_cat_request
           (with_metadata a_cat_request (Some (lit "oil painting"))
                          (Some (lit "baroque")) None)); reflexivity.
Defined.

Lemma build_images_firstn (p : str) (w h n m : Z) :
  n <= m ->
  List.firstn (Z.to_nat n) (build_images p w h m) = build_images p w h n.
Proof.
  intros H. rewrite !build_images_map, firstn_map. now rewrite range_firstn.
Qed.

(** C9. Two requests that differ in their counts only, [n] and [m] with
    [1 <= n <= m <= 9]: the outcome for [n] is the outcome for [m] cut to its
    first [n] URLs. *)
Theorem count_prefix (r : GenerateRequest) (n m : Z) :
  1 <= n -> n <= m -> m <= 9 ->
  generate_images (with_count r n)
  = fmap (List.firstn (Z.to_nat n)) (generate_images (with_count r m))
  /\ api_generate (with_count r n)
     = fmap (List.firstn (Z.to_nat n)) (api_generate (with_count r m))
  /\ (forall images,
        api_generate (with_count r m) = ret images ->
        api_generate (with_count r n) = ret (List.firstn (Z.to_nat n) images)).
Proof.
  intros H1 Hnm H9.
  assert (G : generate_images (with_count r n)
              = fmap (List.firstn (Z.to_nat n))
                     (generate_images (with_count r m))).
  { unfold generate_images. cbn [prompt resolution aspect count with_count].
    destruct (_ || _)%bool; [reflexivity|].
    destruct (dimensions _ _) as [[w h]|e]; [|reflexivity].
    cbn. unfold ret. f_equal. symmetry. now apply build_images_firstn. }
  assert (A : api_generate (with_count r n)
              = fmap (List.firstn (Z.to_nat n))
                     (api_generate (with_count r m))).
  { unfold api_generate.
    assert (V : schema_valid (with_count r n) = schema_valid (with_count r m)).
    { unfold schema_valid. cbn [prompt count with_count].
      replace (1 <=? n) with true by (symmetry; apply Z.leb_le; lia).
      replace (n <=? 9) with true by (symmetry; apply Z.leb_le; lia).
      replace (1 <=? m) with true by (symmetry; apply Z.leb_le; lia).
      replace (m <=? 9) with true by (symmetry; apply Z.leb_le; lia).
      reflexivity. }
    rewrite V. destruct (schema_valid (with_count r m)); [exact G|reflexivity]. }
  split; [exact G|]. split; [exact A|].
  intros images Hm. rewrite A, Hm. reflexivity.
Qed.

Lemma count_prefix_witness :
  api_generate (with_count a_cat_request 1)
  = ret [ lit "https://image.pollinations.ai/prompt/a cat?width=910&height=512&seed=1000&nologo=true" ].
Proof.
  apply (proj2 (proj2 (count_prefix a_cat_request 1 2 ltac:(lia) ltac:(lia)
                                    ltac:(lia)))
               [ lit "https://image.pollinations.ai/prompt/a cat?width=910&height=512&seed=1000&nologo=true";
                 lit "https://image.pollinations.ai/prompt/a cat?width=910&height=512&seed=1001&nologo=true" ]).
  vm_compute. reflexivity.
Defined.

(** C10. An empty [resolution] or [aspect] behaves as an omitted one: with
    [None] or "" for the resolution the base size is 512, with [None] or ""
    for the aspect the ratio is (1, 1), and the outcome is the one of the
    request that spells out "512×512", respectively "1:1". *)
Theorem empty_fields_default (r : GenerateRequest) :
  parse_resolution (or_str None default_resolution) = 512
  /\ parse_resolution (or_str (Some []) default_resolution) = 512
  /\ dict_get ASPECT_MAP (or_str None (lit "1:1")) (1, 1) = (1, 1)
  /\ dict_get ASPECT_MAP (or_str (Some []) (lit "1:1")) (1, 1) = (1, 1)
  /\ api_generate (with_resolution r None)
     = api_generate (with_resolution r (Some default_resolution))
  /\ api_generate (with_resolution r (Some []))
     = api_generate (with_resolution r (Some default_resolution))
  /\ api_generate (with_aspect r None)
     = api_generate (with_aspect r (Some (lit "1:1")))
  /\ api_generate (with_aspect r (Some []))
     = api_generate (with_aspect r (Some (lit "1:1")))
  /\ generate_images (with_resolution r None)
     = generate_images (with_resolution r (Some default_resolution))
  /\ generate_images (with_resolution r (Some []))
     = generate_images (with_resolution r (Some default_resolution))
  /\ generate_images (with_aspect r None)
     = generate_images (with_aspect r (Some (lit "1:1")))
  /\ generate_images (with_aspect r (Some []))
     = generate_images (with_aspect r (Some (lit "1:1"))).
Proof.
  repeat split; try reflexivity.
Qed.

(** ** Double-precision arithmetic *)

Lemma iter_pos_nat {A : Type} (f : A -> A) (p : positive) (x : A) :
  iter_pos f p x = Nat.iter (Pos.to_nat p) f x.
Proof.
  revert x. induction p as [p IH|p IH|]; intros x; cbn [iter_pos].
  - rewrite !IH, Pos2Nat.inj_xI. 
    replace (S (2 * Pos.to_nat p)) with (Pos.to_nat p + (Pos.to_nat p + 1))%nat by lia.
    rewrite !Nat.iter_add. simpl. reflexivity.
  - rewrite !IH, Pos2Nat.inj_xO.
    replace (2 * Pos.to_nat p)%nat with (Pos.to_nat p + Pos.to_nat p)%nat by lia.
    now rewrite Nat.iter_add.
  - reflexivity.
Qed.

Lemma digits2_pos_bounds (m : positive) :
  2 ^ (Z.pos (digits2_pos m) - 1) <= Z.pos m < 2 ^ Z.pos (digits2_pos m).
Proof.
  induction m as [m IH|m IH|]; simpl digits2_pos.
  - rewrite Pos2Z.inj_succ.
    replace (Z.succ (Z.pos (digits2_pos m)) - 1) with (Z.succ (Z.pos (digits2_pos m) - 1)) by lia.
    rewrite !Z.pow_succ_r by lia. lia.
  - rewrite Pos2Z.inj_succ.
    replace (Z.succ (Z.pos (digits2_pos m)) - 1) with (Z.succ (Z.pos (digits2_pos m) - 1)) by lia.
    rewrite !Z.pow_succ_r by lia. lia.
  - simpl. lia.
Qed.

Lemma digits2_pos_unique (m : positive) (n : Z) :
  2 ^ (n - 1) <= Z.pos m < 2 ^ n -> Z.pos (digits2_pos m) = n.
Proof.
  intros [Hl Hu]. pose proof (digits2_pos_bounds m) as [Bl Bu].
  assert (0 < n).
  { destruct (Z.ltb_spec 0 n); [assumption|].
    exfalso. destruct (Z.eq_dec n 0) as [->|];
      [simpl in Hu; lia | rewrite Z.pow_neg_r in Hu by lia; lia]. }
  destruct (Z.lt_trichotomy (Z.pos (digits2_pos m)) n) as [L|[E|G]]; [|exact E|].
  - assert (2 ^ Z.pos (digits2_pos m) <= 2 ^ (n - 1)) by (apply Z.pow_le_mono_r; lia). lia.
  - assert (2 ^ n <= 2 ^ (Z.pos (digits2_pos m) - 1)) by (apply Z.pow_le_mono_r; lia). lia.
Qed.

Lemma shr_1_fields (mrs : shr_record) :
  0 <= shr_m mrs ->
  shr_m (shr_1 mrs) = shr_m mrs / 2
  /\ shr_r (shr_1 mrs) = Z.odd (shr_m mrs)
  /\ shr_s (shr_1 mrs) = (shr_r mrs || shr_s mrs)%bool.
Proof.
  destruct mrs as [m r s]. cbn [shr_m shr_r shr_s]. intros Hm.
  rewrite <- Z.div2_div.
  destruct m as [|[p|p|]|p]; try lia; repeat split.
Qed.

Lemma shr_inv_0 (m : Z) : shr_inv m 0 (Build_shr_record m false false).
Proof.
  unfold shr_inv. cbn [shr_m shr_r shr_s]. rewrite Z.pow_0_r, Z.div_1_r, Z.mod_1_r.
  simpl. repeat split; try easy; lia.
Qed.

Lemma shr_inv_step (m k : Z) (mrs : shr_record) :
  0 <= m -> 0 <= k -> shr_inv m k mrs -> shr_inv m (k + 1) (shr_1 mrs).
Proof.
  intros Hm Hk (Im & Ir & Is).
  assert (Ht : 0 < 2 ^ k) by (apply Z.pow_pos_nonneg; lia).
  assert (HM : 0 <= shr_m mrs) by (rewrite Im; apply Z.div_pos; lia).
  destruct (shr_1_fields mrs HM) as (Fm & Fr & Fs).
  pose proof (Z.mod_pos_bound m (2 ^ k) Ht) as Hr.
  pose proof (Z.mod_pos_bound (m / 2 ^ k) 2 ltac:(lia)) as Hb.
  assert (E2 : 2 ^ (k + 1) = 2 ^ k * 2) by (rewrite Z.pow_add_r by lia; reflexivity).
  assert (Er : m mod 2 ^ (k + 1) = m mod 2 ^ k + 2 ^ k * ((m / 2 ^ k) mod 2)).
  { rewrite E2. apply Z.rem_mul_r; lia. }
  assert (Eo : Z.odd (m / 2 ^ k) = true <-> (m / 2 ^ k) mod 2 = 1).
  { rewrite Zmod_odd. destruct (Z.odd (m / 2 ^ k)); split; try easy. }
  unfold shr_inv. rewrite Fm, Fr, Fs, Im. repeat split.
  - rewrite E2. apply Z.div_div; lia.
  - rewrite Eo, Er, E2. nia.
  - rewrite Eo, Er, E2. nia.
  - rewrite orb_true_iff, Ir, Is, Er.
    replace (2 * (m mod 2 ^ k + 2 ^ k * ((m / 2 ^ k) mod 2)))
      with (2 * (m mod 2 ^ k) + ((m / 2 ^ k) mod 2) * 2 ^ (k + 1)) by (rewrite E2; ring).
    rewrite Z.mod_add by lia.
    intros H. rewrite E2, (Z.mul_comm (2 ^ k) 2), Z.mul_mod_distr_l by lia.
    rewrite Z.mod_mod by lia.
    destruct (Z.eq_dec (m mod 2 ^ k) 0) as [E0|N0]; [|lia].
    rewrite E0 in H. rewrite Z.mul_0_r, Z.mod_0_l in H by lia. lia.
  - rewrite orb_true_iff, Ir, Is, Er.
    replace (2 * (m mod 2 ^ k + 2 ^ k * ((m / 2 ^ k) mod 2)))
      with (2 * (m mod 2 ^ k) + ((m / 2 ^ k) mod 2) * 2 ^ (k + 1)) by (rewrite E2; ring).
    rewrite Z.mod_add by lia.
    rewrite E2, (Z.mul_comm (2 ^ k) 2), Z.mul_mod_distr_l by lia.
    rewrite Z.mod_mod by lia. intros H.
    destruct (Z_le_gt_dec (2 ^ k) (2 * (m mod 2 ^ k))); [now left|right].
    rewrite Z.mod_small by lia. lia.
Qed.

Lemma shr_inv_iter (m : Z) (n : nat) :
  0 <= m ->
  shr_inv m (Z.of_nat n) (Nat.iter n shr_1 (Build_shr_record m false false)).
Proof.
  intros Hm. induction n as [|n IH].
  - apply shr_inv_0.
  - rewrite Nat2Z.inj_succ, <- Z.add_1_r. simpl.
    apply shr_inv_step; [assumption | lia | exact IH].
Qed.

Lemma shr_inv_round (m k : Z) (mrs : shr_record) :
  0 <= m -> 0 <= k -> shr_inv m k mrs ->
  round_nearest_even (shr_m mrs) (loc_of_shr_record mrs) = rne m k.
Proof.
  intros Hm Hk (Im & Ir & Is).
  assert (Ht : 0 < 2 ^ k) by (apply Z.pow_pos_nonneg; lia).
  pose proof (Z.mod_pos_bound m (2 ^ k) Ht) as Hr.
  unfold rne. destruct mrs as [M r s]. cbn [shr_m shr_r shr_s] in *. subst M.
  destruct r, s; cbn [loc_of_shr_record round_nearest_even].
  - assert (2 ^ k <= 2 * (m mod 2 ^ k)) by (now apply Ir).
    assert ((2 * (m mod 2 ^ k)) mod 2 ^ k <> 0) by (now apply Is).
    destruct (Z.ltb_spec (2 * (m mod 2 ^ k)) (2 ^ k)); [lia|].
    destruct (Z.ltb_spec (2 ^ k) (2 * (m mod 2 ^ k))); [reflexivity|].
    exfalso. replace (2 * (m mod 2 ^ k)) with (2 ^ k) in * by lia.
    rewrite Z.mod_same in * by lia. lia.
  - assert (2 ^ k <= 2 * (m mod 2 ^ k)) by (now apply Ir).
    assert (~ (2 * (m mod 2 ^ k)) mod 2 ^ k <> 0) by (rewrite <- Is; easy).
    destruct (Z.ltb_spec (2 * (m mod 2 ^ k)) (2 ^ k)); [lia|].
    destruct (Z.ltb_spec (2 ^ k) (2 * (m mod 2 ^ k))); [|reflexivity].
    exfalso. apply H0.
    replace (2 * (m mod 2 ^ k)) with ((2 * (m mod 2 ^ k) - 2 ^ k) + 1 * 2 ^ k) by ring.
    rewrite Z.mod_add by lia. rewrite Z.mod_small by lia. lia.
  - assert (~ 2 ^ k <= 2 * (m mod 2 ^ k)) by (rewrite <- Ir; easy).
    destruct (Z.ltb_spec (2 * (m mod 2 ^ k)) (2 ^ k)); [reflexivity|lia].
  - assert (~ 2 ^ k <= 2 * (m mod 2 ^ k)) by (rewrite <- Ir; easy).
    destruct (Z.ltb_spec (2 * (m mod 2 ^ k)) (2 ^ k)); [reflexivity|lia].
Qed.

Lemma fexp_normal (x : Z) : -1021 <= x -> fexp prec emax x = x - 53.
Proof. unfold fexp, emin, prec, emax. lia. Qed.

Lemma shr_fexp_shift (m : positive) (e k : Z) :
  0 < k -> 2 ^ (52 + k) <= Z.pos m < 2 ^ (53 + k) -> -1074 <= e + k ->
  exists mrs,
    shr_fexp prec emax (Z.pos m) e loc_Exact = (mrs, e + k)
    /\ shr_inv (Z.pos m) k mrs.
Proof.
  intros Hk Hm He.
  assert (D : Z.pos (digits2_pos m) = 53 + k)
    by (apply digits2_pos_unique; now replace (53 + k - 1) with (52 + k) by lia).
  unfold shr_fexp. cbn [Zdigits2 shr_record_of_loc]. rewrite D.
  rewrite fexp_normal by lia.
  replace (53 + k + e - 53 - e) with k by lia.
  destruct k as [|p|p]; try lia.
  cbn [shr]. eexists. split; [reflexivity|].
  rewrite iter_pos_nat. rewrite <- (positive_nat_Z p).
  apply shr_inv_iter. lia.
Qed.

Lemma shr_fexp_none (m : positive) (e : Z) :
  2 ^ 52 <= Z.pos m < 2 ^ 53 -> -1074 <= e ->
  shr_fexp prec emax (Z.pos m) e loc_Exact
  = (Build_shr_record (Z.pos m) false false, e).
Proof.
  intros Hm He.
  assert (D : Z.pos (digits2_pos m) = 53) by (now apply digits2_pos_unique).
  unfold shr_fexp. cbn [Zdigits2 shr_record_of_loc]. rewrite D.
  rewrite fexp_normal by lia.
  replace (53 + e - 53 - e) with 0 by lia. reflexivity.
Qed.

Lemma shr_fexp_one (e : Z) :
  -1074 <= e ->
  shr_fexp prec emax (2 ^ 53) e loc_Exact
  = (Build_shr_record (2 ^ 52) false false, e + 1).
Proof.
  intros He. unfold shr_fexp.
  change (Zdigits2 (2 ^ 53)) with 54. rewrite fexp_normal by lia.
  replace (54 + e - 53 - e) with 1 by lia. reflexivity.
Qed.

Lemma rne_bounds (m k : Z) :
  0 < k -> 2 ^ (52 + k) <= m < 2 ^ (53 + k) -> 2 ^ 52 <= rne m k <= 2 ^ 53.
Proof.
  intros Hk [Hl Hu].
  assert (Ht : 0 < 2 ^ k) by (apply Z.pow_pos_nonneg; lia).
  rewrite Z.pow_add_r in Hl, Hu by lia.
  assert (2 ^ 52 <= m / 2 ^ k) by (apply Z.div_le_lower_bound; lia).
  assert (m / 2 ^ k < 2 ^ 53) by (apply Z.div_lt_upper_bound; lia).
  unfold rne.
  destruct (2 * (m mod 2 ^ k) <? 2 ^ k); [lia|].
  destruct (2 ^ k <? 2 * (m mod 2 ^ k)); [lia|].
  destruct (Z.even (m / 2 ^ k)); lia.
Qed.

(** The rounding of a mantissa of [53 + k] bits, in the normal range. *)
Lemma binary_round_aux_shift (s : bool) (m : positive) (e k : Z) :
  0 < k -> 2 ^ (52 + k) <= Z.pos m < 2 ^ (53 + k) -> -1074 <= e + k ->
  binary_round_aux prec emax s (Z.pos m) e loc_Exact
  = if rne (Z.pos m) k <? 2 ^ 53 then
      if e + k <=? 971 then S754_finite s (Z.to_pos (rne (Z.pos m) k)) (e + k)
      else S754_infinity s
    else
      if e + k + 1 <=? 971 then S754_finite s (Z.to_pos (2 ^ 52)) (e + k + 1)
      else S754_infinity s.
Proof.
  intros Hk Hm He.
  destruct (shr_fexp_shift m e k Hk Hm He) as (mrs & E1 & I).
  pose proof (rne_bounds (Z.pos m) k Hk Hm) as B.
  unfold binary_round_aux. rewrite E1.
  rewrite (shr_inv_round (Z.pos m) k mrs) by (assumption || lia).
  destruct (Z.ltb_spec (rne (Z.pos m) k) (2 ^ 53)) as [L|G].
  - destruct (rne (Z.pos m) k) as [|M|M] eqn:EM; try lia.
    rewrite shr_fexp_none by lia. cbn [shr_m].
    unfold prec, emax. now replace (1024 - 53) with 971 by reflexivity.
  - replace (rne (Z.pos m) k) with (2 ^ 53) by lia.
    rewrite shr_fexp_one by lia. cbn [shr_m].
    unfold prec, emax. now replace (1024 - 53) with 971 by reflexivity.
Qed.

(** A mantissa of 53 bits is kept. *)
Lemma binary_round_aux_exact (s : bool) (m : positive) (e : Z) :
  2 ^ 52 <= Z.pos m < 2 ^ 53 -> -1074 <= e ->
  binary_round_aux prec emax s (Z.pos m) e loc_Exact
  = if e <=? 971 then S754_finite s m e else S754_infinity s.
Proof.
  intros Hm He. unfold binary_round_aux.
  rewrite shr_fexp_none by assumption.
  cbn [shr_m loc_of_shr_record round_nearest_even].
  rewrite shr_fexp_none by assumption. cbn [shr_m].
  unfold prec, emax. now replace (1024 - 53) with 971 by reflexivity.
Qed.

Lemma pos_iter_xO (b p : positive) :
  Z.pos (Pos.iter xO b p) = Z.pos b * 2 ^ Z.pos p.
Proof.
  induction p as [|p IH] using Pos.peano_ind.
  - simpl. lia.
  - rewrite Pos.iter_succ, Pos2Z.inj_xO, IH, Pos2Z.inj_succ, Z.pow_succ_r by lia.
    ring.
Qed.

(** [float(n)] for [n] of at most 53 bits is exact: the mantissa is [n]
    shifted to 53 bits. *)
Lemma binary_round_small (s : bool) (b : positive) :
  Z.pos b < 2 ^ 53 ->
  exists B j,
    binary_round prec emax s b 0 = S754_finite s B (- j)
    /\ 0 <= j <= 52
    /\ Z.pos B = Z.pos b * 2 ^ j
    /\ 2 ^ 52 <= Z.pos B < 2 ^ 53.
Proof.
  intros Hb. pose proof (digits2_pos_bounds b) as [Dl Du].
  set (d := Z.pos (digits2_pos b)) in *.
  assert (Hd : 1 <= d <= 53).
  { split; [unfold d; lia|].
    destruct (Z_le_gt_dec d 53); [assumption|].
    assert (2 ^ 53 <= 2 ^ (d - 1)) by (apply Z.pow_le_mono_r; lia). lia. }
  unfold binary_round. rewrite Z.add_0_r. fold d.
  rewrite fexp_normal by lia. unfold shl_align.
  replace (d - 53 - 0) with (d - 53) by lia.
  destruct (d - 53) as [|p|p] eqn:Ed; try lia.
  - exists b, 0. replace d with 53 in * by lia.
    rewrite binary_round_aux_exact by lia.
    simpl. repeat split; lia.
  - exists (Pos.iter xO b p), (Z.pos p).
    assert (EB : Z.pos (Pos.iter xO b p) = Z.pos b * 2 ^ Z.pos p)
      by apply pos_iter_xO.
    assert (Hp : Z.pos p = 53 - d) by lia.
    assert (Bd : 2 ^ 52 <= Z.pos b * 2 ^ Z.pos p < 2 ^ 53).
    { rewrite Hp. split.
      - replace 52 with ((d - 1) + (53 - d)) at 1 by lia.
        rewrite Z.pow_add_r by lia. apply Z.mul_le_mono_nonneg_r; [|lia].
        apply Z.pow_nonneg; lia.
      - replace 53 with (d + (53 - d)) at 2 by lia.
        rewrite Z.pow_add_r by lia. apply Z.mul_lt_mono_pos_r; [|lia].
        apply Z.pow_pos_nonneg; lia. }
    rewrite binary_round_aux_exact by (rewrite ?EB; lia).
    replace (Z.neg p) with (- Z.pos p) by reflexivity.
    destruct (Z.leb_spec (- Z.pos p) 971); [|lia].
    repeat split; try lia.
Qed.

(** [float(n)] for a larger [n] is rounded, and finite below 2^1021. *)
Lemma binary_round_large (s : bool) (b : positive) :
  2 ^ 53 <= Z.pos b < 2 ^ 1021 ->
  exists B e,
    binary_round prec emax s b 0 = S754_finite s B e
    /\ 1 <= e <= 969
    /\ 2 ^ 52 <= Z.pos B < 2 ^ 53.
Proof.
  intros [Hl Hu]. pose proof (digits2_pos_bounds b) as [Dl Du].
  set (d := Z.pos (digits2_pos b)) in *.
  assert (Hd : 54 <= d <= 1021).
  { split.
    - destruct (Z_le_gt_dec 54 d); [assumption|].
      assert (2 ^ d <= 2 ^ 53) by (apply Z.pow_le_mono_r; lia). lia.
    - destruct (Z_le_gt_dec d 1021); [assumption|].
      assert (2 ^ 1021 <= 2 ^ (d - 1)) by (apply Z.pow_le_mono_r; lia). lia. }
  unfold binary_round. rewrite Z.add_0_r. fold d.
  rewrite fexp_normal by lia. unfold shl_align.
  replace (d - 53 - 0) with (d - 53) by lia.
  destruct (d - 53) as [|p|p] eqn:Ed; try lia.
  assert (Hk : 0 < Z.pos p) by lia.
  assert (Hm : 2 ^ (52 + Z.pos p) <= Z.pos b < 2 ^ (53 + Z.pos p)).
  { replace (52 + Z.pos p) with (d - 1) by lia.
    replace (53 + Z.pos p) with d by lia. lia. }
  rewrite (binary_round_aux_shift s b 0 (Z.pos p) Hk Hm) by lia.
  pose proof (rne_bounds (Z.pos b) (Z.pos p) Hk Hm) as Bd.
  destruct (Z.ltb_spec (rne (Z.pos b) (Z.pos p)) (2 ^ 53)).
  - destruct (Z.leb_spec (0 + Z.pos p) 971); [|lia].
    exists (Z.to_pos (rne (Z.pos b) (Z.pos p))), (0 + Z.pos p).
    rewrite Z2Pos.id by lia. repeat split; lia.
  - destruct (Z.leb_spec (0 + Z.pos p + 1) 971); [|lia].
    exists (Z.to_pos (2 ^ 52)), (0 + Z.pos p + 1).
    rewrite Z2Pos.id by lia. repeat split; lia.
Qed.

Lemma shiftl_carry (t : Z) : Z.shiftl (2 ^ 52) (t + 1) = Z.shiftl (2 ^ 53) t.
Proof.
  destruct (Z_le_gt_dec 0 t).
  - rewrite !Z.shiftl_mul_pow2 by lia. rewrite Z.pow_add_r by lia.
    change (2 ^ 53) with (2 ^ 52 * 2). ring.
  - rewrite !Z.shiftl_div_pow2 by lia.
    replace (- t) with (1 + (- (t + 1))) by lia.
    rewrite Z.pow_add_r by lia. change (2 ^ 53) with (2 ^ 1 * 2 ^ 52).
    symmetry. apply Z.div_mul_cancel_l.
    + apply Z.pow_nonzero; lia.
    + lia.
Qed.

(** The product of two normal doubles, truncated: the exact product of the
    mantissas rounded to 53 bits, then shifted by the exponent. *)
Lemma mul_trunc (s sq : bool) (B mq : positive) (eb eq : Z) :
  2 ^ 52 <= Z.pos B < 2 ^ 53 -> 2 ^ 52 <= Z.pos mq < 2 ^ 53 ->
  -1126 <= eb + eq -> eb + eq <= 917 ->
  exists k,
    (k = 52 \/ k = 53)
    /\ 2 ^ (52 + k) <= Z.pos B * Z.pos mq < 2 ^ (53 + k)
    /\ int_of_float (SFmul prec emax (S754_finite s B eb) (S754_finite sq mq eq))
       = ret (cond_Zopp (xorb s sq)
                (Z.shiftl (rne (Z.pos B * Z.pos mq) k) (eb + eq + k))).
Proof.
  intros HB Hq Hl Hu.
  assert (P : 2 ^ 104 <= Z.pos B * Z.pos mq < 2 ^ 106).
  { change (2 ^ 104) with (2 ^ 52 * 2 ^ 52).
    change (2 ^ 106) with (2 ^ 53 * 2 ^ 53). nia. }
  assert (K : exists k, (k = 52 \/ k = 53)
                /\ 2 ^ (52 + k) <= Z.pos B * Z.pos mq < 2 ^ (53 + k)).
  { destruct (Z_lt_le_dec (Z.pos B * Z.pos mq) (2 ^ 105)).
    - exists 52. split; [now left|]. simpl (52 + 52). simpl (53 + 52). lia.
    - exists 53. split; [now right|]. simpl (52 + 53). simpl (53 + 53). lia. }
  destruct K as (k & Hk & Hm). exists k. split; [exact Hk|]. split; [exact Hm|].
  cbn [SFmul]. rewrite <- Pos2Z.inj_mul in *.
  rewrite (binary_round_aux_shift (xorb s sq) (B * mq) (eb + eq) k)
    by (assumption || lia).
  pose proof (rne_bounds (Z.pos (B * mq)) k ltac:(lia) Hm) as Bd.
  destruct (Z.ltb_spec (rne (Z.pos (B * mq)) k) (2 ^ 53)).
  - destruct (Z.leb_spec (eb + eq + k) 971); [|lia].
    cbn [int_of_float]. rewrite Z2Pos.id by lia. reflexivity.
  - destruct (Z.leb_spec (eb + eq + k + 1) 971); [|lia].
    cbn [int_of_float]. rewrite Z2Pos.id by lia.
    rewrite shiftl_carry. now replace (rne (Z.pos (B * mq)) k) with (2 ^ 53) by lia.
Qed.

Lemma mul_lt_cancel (a b c : Z) : 0 < c -> a * c < b * c -> a < b.
Proof. intros Hc H. now apply Z.mul_lt_mono_pos_r in H. Qed.

(** Rounding [m / 2^k] to nearest-even and then dropping [s] more bits is
    the floor [Q] as soon as [m], moved by half a unit of the rounding, stays
    within the interval of [Q]; a tie at the lower end goes to the even side,
    which is the side of [Q]. *)
Lemma rne_div_floor (m k s Q : Z) :
  0 <= m -> 0 < k -> 0 < s ->
  Q * (2 ^ k * 2 ^ s) <= m + 2 ^ (k - 1) < (Q + 1) * (2 ^ k * 2 ^ s) ->
  rne m k / 2 ^ s = Q.
Proof.
  intros Hm Hk Hs [Hl Hu].
  assert (Eh : 2 ^ k = 2 * 2 ^ (k - 1)).
  { replace k with (Z.succ (k - 1)) at 1 by lia. apply Z.pow_succ_r. lia. }
  assert (Es : 2 ^ s = 2 * 2 ^ (s - 1)).
  { replace s with (Z.succ (s - 1)) at 1 by lia. apply Z.pow_succ_r. lia. }
  assert (Hh : 0 < 2 ^ (k - 1)) by (apply Z.pow_pos_nonneg; lia).
  assert (HS : 0 < 2 ^ (s - 1)) by (apply Z.pow_pos_nonneg; lia).
  set (h := 2 ^ (k - 1)) in *. set (S' := 2 ^ (s - 1)) in *.
  assert (Ht : 0 < 2 ^ k) by lia.
  pose proof (Z.div_mod m (2 ^ k) ltac:(lia)) as Em.
  pose proof (Z.mod_pos_bound m (2 ^ k) Ht) as Hr.
  unfold rne. set (q := m / 2 ^ k) in *. set (r := m mod 2 ^ k) in *.
  rewrite Eh, Es in *.
  set (W := Q * (2 * S')) in *.
  assert (EW : Q * (2 * h * (2 * S')) = W * (2 * h)) by (unfold W; ring).
  assert (EW1 : (Q + 1) * (2 * h * (2 * S')) = (W + 2 * S') * (2 * h))
    by (unfold W; ring).
  rewrite EW in Hl. rewrite EW1 in Hu.
  assert (R : W <= (if 2 * r <? 2 * h then q
                    else if 2 * h <? 2 * r then q + 1
                    else if Z.even q then q else q + 1) < W + 2 * S').
  { destruct (Z.ltb_spec (2 * r) (2 * h)).
    - split.
      + assert (W < q + 1); [|lia]. apply (mul_lt_cancel _ _ (2 * h)); lia.
      + apply (mul_lt_cancel _ _ (2 * h)); lia.
    - destruct (Z.ltb_spec (2 * h) (2 * r)).
      + split.
        * assert (W < q + 2); [|lia]. apply (mul_lt_cancel _ _ (2 * h)); lia.
        * apply (mul_lt_cancel _ _ (2 * h)); lia.
      + assert (r = h) by lia.
        assert (U : q + 1 < W + 2 * S')
          by (apply (mul_lt_cancel _ _ (2 * h)); lia).
        assert (L : W < q + 2) by (apply (mul_lt_cancel _ _ (2 * h)); lia).
        destruct (Z.even q) eqn:Ev; [|lia].
        split; [|lia].
        assert (W <> q + 1); [|lia].
        intros E. apply Z.even_spec in Ev. destruct Ev as [q' Eq'].
        unfold W in E. lia. }
  symmetry. apply (Z.div_unique _ _ Q
    ((if 2 * r <? 2 * h then q
      else if 2 * h <? 2 * r then q + 1
      else if Z.even q then q else q + 1) - W)).
  - left. lia.
  - unfold W. ring.
Qed.

Lemma float_of_int_finite (n : Z) :
  n <> 0 -> Z.abs n < 2 ^ 1021 ->
  exists B e,
    float_of_int n = ret (S754_finite (n <? 0) B e)
    /\ 2 ^ 52 <= Z.pos B < 2 ^ 53 /\ -52 <= e <= 969.
Proof.
  intros Hn Ha. unfold float_of_int.
  destruct n as [|b|b]; [easy| |]; cbn [binary_normalize];
    change (Z.abs _) with (Z.pos b) in Ha.
  - destruct (Z_lt_le_dec (Z.pos b) (2 ^ 53)) as [S|L].
    + destruct (binary_round_small false b S) as (B & j & -> & Hj & _ & HB).
      exists B, (- j). repeat split; lia.
    + destruct (binary_round_large false b (conj L Ha)) as (B & e & -> & He & HB).
      exists B, e. repeat split; lia.
  - destruct (Z_lt_le_dec (Z.pos b) (2 ^ 53)) as [S|L].
    + destruct (binary_round_small true b S) as (B & j & -> & Hj & _ & HB).
      exists B, (- j). repeat split; lia.
    + destruct (binary_round_large true b (conj L Ha)) as (B & e & -> & He & HB).
      exists B, e. repeat split; lia.
Qed.

(** [int(n * q)] raises nothing for [n] below 2^1021 in absolute value and a
    normal double [q] between 1 and 2. *)
Lemma scale_total (n : Z) (mq : positive) :
  Z.abs n < 2 ^ 1021 -> 2 ^ 52 <= Z.pos mq < 2 ^ 53 ->
  exists v,
    (x <- int_mul_float n (S754_finite false mq (-52)) ;; int_of_float x) = ret v.
Proof.
  intros Ha Hq. destruct (Z.eq_dec n 0) as [->|Hn].
  - exists 0. reflexivity.
  - destruct (float_of_int_finite n Hn Ha) as (B & e & E & HB & He).
    unfold int_mul_float. rewrite E. cbn [bind ret].
    destruct (mul_trunc (n <? 0) false B mq e (-52) HB Hq ltac:(lia) ltac:(lia))
      as (k & _ & _ & ->).
    eexists. reflexivity.
Qed.

Lemma true_div_quotients (num den : Z) (mq : positive) :
  In (num, den, mq) quotients ->
  true_div num den = ret (S754_finite false mq (-52)).
Proof.
  intros H. quotient_cases H; vm_compute; reflexivity.
Qed.

Lemma small_shift (b j : Z) :
  1 <= b < 2 ^ 50 -> 0 <= j -> 2 ^ 52 <= b * 2 ^ j -> 3 <= j /\ 8 <= 2 ^ j.
Proof.
  intros Hb Hj H.
  destruct (Z_le_gt_dec 3 j).
  - split; [assumption|]. change 8 with (2 ^ 3). apply Z.pow_le_mono_r; lia.
  - assert (C : j = 0 \/ j = 1 \/ j = 2) by lia.
    destruct C as [-> | [-> | ->]]; simpl in H; lia.
Qed.

(** Below 2^50 the product, truncated, is the floor of the exact quotient. *)
Lemma scale_exact (b num den : Z) (mq : positive) :
  1 <= b < 2 ^ 50 -> In (num, den, mq) quotients ->
  (x <- int_mul_float b (S754_finite false mq (-52)) ;; int_of_float x)
  = ret (b * num / den).
Proof.
  intros Hb Hin.
  destruct b as [|p|p]; try lia.
  unfold int_mul_float, float_of_int. cbn [binary_normalize].
  destruct (binary_round_small false p ltac:(lia)) as (B & j & -> & Hj & EB & HB).
  cbn [bind ret].
  assert (HT : 3 <= j /\ 8 <= 2 ^ j) by (apply (small_shift (Z.pos p)); lia).
  destruct HT as [Hj4 HT].
  assert (Hq : 2 ^ 52 <= Z.pos mq < 2 ^ 53).
  { quotient_cases Hin; lia. }
  destruct (mul_trunc false false B mq (- j) (-52) HB Hq ltac:(lia) ltac:(lia))
    as (k & Hk & Hm & ->).
  cbn [xorb cond_Zopp]. unfold ret. f_equal.
  rewrite Z.shiftl_div_pow2 by lia.
  assert (Hden : 0 < den)
    by (quotient_cases Hin; lia).
  pose proof (Z.mul_div_le (Z.pos p * num) den Hden) as Ql.
  pose proof (Z.mul_succ_div_gt (Z.pos p * num) den Hden) as Qu.
  set (Q := Z.pos p * num / den) in *.
  apply rne_div_floor; try lia.
  replace (2 ^ k * 2 ^ (- (- j + -52 + k))) with (2 ^ j * 2 ^ 52).
  2:{ rewrite <- !Z.pow_add_r by lia. f_equal. lia. }
  set (T := 2 ^ j) in *. set (X := Q * T).
  assert (X1 : den * X <= num * Z.pos B) by (unfold X; rewrite EB; nia).
  assert (X2 : num * Z.pos B - den * X <= (den - 1) * T)
    by (unfold X; rewrite EB; nia).
  replace (Q * (T * 2 ^ 52)) with (X * 2 ^ 52) by (unfold X; ring).
  replace ((Q + 1) * (T * 2 ^ 52)) with ((X + T) * 2 ^ 52) by (unfold X; ring).
  generalize dependent X. intros X X1 X2.
  quotient_cases Hin;
    destruct Hk as [-> | ->];
    simpl (52 + _) in Hm; simpl (53 + _) in Hm; simpl (_ - 1); lia.
Qed.

Lemma dict_get_ratios (key : str) : In (dict_get ASPECT_MAP key (1, 1)) ratios.
Proof.
  unfold ASPECT_MAP, ratios. cbn [dict_get].
  repeat match goal with
         | |- context [if ?b then _ else _] => destruct b
         end; cbn [In]; auto 6.
Qed.

Lemma dimensions_total (base : Z) (rat : Z * Z) :
  In rat ratios -> Z.abs base < 2 ^ 1021 ->
  exists w h, dimensions base rat = ret (w, h).
Proof.
  intros Hr Hb. unfold dimensions.
  assert (Q : forall num den mq,
             In (num, den, mq) quotients ->
             exists v, (q <- true_div num den ;;
                        x <- int_mul_float base q ;; int_of_float x) = ret v).
  { intros num den mq Hin. rewrite (true_div_quotients _ _ _ Hin). cbn [bind ret].
    apply scale_total; [assumption|]. quotient_cases Hin; lia. }
  cbn [In ratios] in Hr.
  repeat (destruct Hr as [Hr|Hr]; [subst rat|]); [..|contradiction];
    cbn [fst snd].
  - destruct (Q 1 1 _ ltac:(cbn; auto)) as (v & E).
    change (1 >=? 1) with true. cbv iota.
    destruct (true_div 1 1) as [q|]; [|discriminate]. cbn [bind] in *.
    destruct (int_mul_float base q) as [x|]; [|discriminate]. cbn [bind] in *.
    rewrite E. cbn. eauto.
  - destruct (Q 16 9 _ ltac:(cbn; auto)) as (v & E).
    change (16 >=? 9) with true. cbv iota.
    destruct (true_div 16 9) as [q|]; [|discriminate]. cbn [bind] in *.
    destruct (int_mul_float base q) as [x|]; [|discriminate]. cbn [bind] in *.
    rewrite E. cbn. eauto.
  - destruct (Q 16 9 _ ltac:(cbn; auto)) as (v & E).
    change (9 >=? 16) with false. cbv iota.
    destruct (true_div 16 9) as [q|]; [|discriminate]. cbn [bind] in *.
    destruct (int_mul_float base q) as [x|]; [|discriminate]. cbn [bind] in *.
    rewrite E. cbn. eauto.
  - destruct (Q 4 3 _ ltac:(cbn; auto)) as (v & E).
    change (4 >=? 3) with true. cbv iota.
    destruct (true_div 4 3) as [q|]; [|discriminate]. cbn [bind] in *.
    destruct (int_mul_float base q) as [x|]; [|discriminate]. cbn [bind] in *.
    rewrite E. cbn. eauto.
Qed.

Lemma dimensions_exact (base : Z) (tok : str) (num den : Z) :
  1 <= base < 2 ^ 50 -> In (tok, (num, den)) ASPECT_MAP ->
  dimensions base (num, den)
  = ret (if num >=? den then (base * num / den, base)
         else (base, base * den / num)).
Proof.
  intros Hb Hin.
  assert (Q : forall n d mq,
             In (n, d, mq) quotients ->
             (q <- true_div n d ;; x <- int_mul_float base q ;; int_of_float x)
             = ret (base * n / d)).
  { intros n d mq H. rewrite (true_div_quotients _ _ _ H). cbn [bind ret].
    now apply (scale_exact base n d mq). }
  unfold dimensions. cbn [In ASPECT_MAP] in Hin.
  repeat (destruct Hin as [Hin|Hin]; [injection Hin as _ <- <-|]);
    [..|contradiction]; cbn [fst snd].
  - pose proof (Q 1 1 _ ltac:(cbn; auto)) as E.
    change (1 >=? 1) with true. cbv iota.
    destruct (true_div 1 1) as [q|]; [|discriminate]. cbn [bind] in *.
    destruct (int_mul_float base q) as [x|]; [|discriminate]. cbn [bind] in *.
    now rewrite E.
  - pose proof (Q 16 9 _ ltac:(cbn; auto)) as E.
    change (16 >=? 9) with true. cbv iota.
    destruct (true_div 16 9) as [q|]; [|discriminate]. cbn [bind] in *.
    destruct (int_mul_float base q) as [x|]; [|discriminate]. cbn [bind] in *.
    now rewrite E.
  - pose proof (Q 16 9 _ ltac:(cbn; auto)) as E.
    change (9 >=? 16) with false. cbv iota.
    destruct (true_div 16 9) as [q|]; [|discriminate]. cbn [bind] in *.
    destruct (int_mul_float base q) as [x|]; [|discriminate]. cbn [bind] in *.
    now rewrite E.
  - pose proof (Q 4 3 _ ltac:(cbn; auto)) as E.
    change (4 >=? 3) with true. cbv iota.
    destruct (true_div 4 3) as [q|]; [|discriminate]. cbn [bind] in *.
    destruct (int_mul_float base q) as [x|]; [|discriminate]. cbn [bind] in *.
    now rewrite E.
Qed.

(** C2, as the code has it.  For a base size from 1 up to (not including)
    2^50 and a token of the enumerated set with ratio (numerator,
    denominator), the dimensions before the 1536 cap are: height = base and
    width = floor(base * numerator / denominator) when numerator >=
    denominator, width = base and height = floor(base * denominator /
    numerator) otherwise; the smaller of the two is base.  The scaled side is
    the truncated double-precision product, which is that floor in this
    range. *)
Theorem aspect_dimensions (base : Z) (tok : str) (num den : Z) :
  1 <= base < 2 ^ 50 -> In (tok, (num, den)) ASPECT_MAP ->
  exists w h,
    dict_get ASPECT_MAP tok (1, 1) = (num, den)
    /\ dimensions base (num, den) = ret (w, h)
    /\ (num >= den -> h = base /\ w = base * num / den)
    /\ (num < den -> w = base /\ h = base * den / num)
    /\ Z.min w h = base.
Proof.
  intros Hb Hin. pose proof (dimensions_exact base tok num den Hb Hin) as E.
  assert (K : dict_get ASPECT_MAP tok (1, 1) = (num, den)
              /\ 0 < num /\ 0 < den).
  { cbn [In ASPECT_MAP] in Hin.
    repeat (destruct Hin as [Hin|Hin]; [injection Hin as <- <- <-|]);
      [..|contradiction]; vm_compute; auto. }
  destruct K as (K & Hn & Hd).
  destruct (Z.geb_spec num den) as [G|L].
  - exists (base * num / den), base. split; [exact K|]. split; [exact E|].
    assert (base <= base * num / den)
      by (apply Z.div_le_lower_bound; nia).
    repeat split; lia.
  - exists base, (base * den / num). split; [exact K|]. split; [exact E|].
    assert (base <= base * den / num)
      by (apply Z.div_le_lower_bound; nia).
    repeat split; lia.
Qed.

Lemma aspect_dimensions_witness :
  exists w h,
    dict_get ASPECT_MAP (lit "9:16") (1, 1) = (9, 16)
    /\ dimensions 512 (9, 16) = ret (w, h)
    /\ (9 >= 16 -> h = 512 /\ w = 512 * 9 / 16)
    /\ (9 < 16 -> w = 512 /\ h = 512 * 16 / 9)
    /\ Z.min w h = 512.
Proof.
  apply (aspect_dimensions 512 (lit "9:16") 9 16).
  - lia.
  - cbn. auto.
Defined.

(** C2 as stated fails for large base sizes: the product is formed in double
    precision, so for 16:9 and base 1307269893497621 the width is one more
    than the floor, and for 1:1 and base 2^53 + 1 the width falls below the
    base. *)
Lemma dimensions_not_floor :
  In (lit "16:9", (16, 9)) ASPECT_MAP
  /\ dimensions 1307269893497621 (16, 9)
     = ret (2324035366217993, 1307269893497621)
  /\ 1307269893497621 * 16 / 9 = 2324035366217992
  /\ In (lit "1:1", (1, 1)) ASPECT_MAP
  /\ dimensions (2 ^ 53 + 1) (1, 1) = ret (2 ^ 53, 2 ^ 53 + 1)
  /\ Z.min (2 ^ 53) (2 ^ 53 + 1) <> 2 ^ 53 + 1.
Proof.
  split; [cbn; auto|]. split; [vm_compute; reflexivity|].
  split; [reflexivity|]. split; [cbn; auto|].
  split; [vm_compute; reflexivity|]. vm_compute. discriminate.
Qed.

Lemma lstrip_length (s : str) : (List.length (lstrip s) <= List.length s)%nat.
Proof.
  induction s as [|c s IH]; simpl; [lia|]. destruct (isspace c); simpl; lia.
Qed.

Lemma strip_len (s : str) : len (strip s) <= len s.
Proof.
  unfold len, strip, rstrip. rewrite length_rev.
  pose proof (lstrip_length (List.rev (lstrip s))) as H1.
  rewrite length_rev in H1. pose proof (lstrip_length s). lia.
Qed.

Lemma range_NoDup (n : Z) : NoDup (range n).
Proof.
  unfold range. apply Injective_map_NoDup.
  - intros a b. apply Nat2Z.inj.
  - apply seq_NoDup.
Qed.

Lemma build_images_NoDup (p : str) (w h c : Z) : NoDup (build_images p w h c).
Proof.
  rewrite build_images_map. apply Injective_map_NoDup.
  - intros i j H. apply image_url_seed_inj in H. lia.
  - apply range_NoDup.
Qed.

(** C1, as the code has it.  For a request whose trimmed prompt has at least
    3 characters, whose count is in [1, 9] and whose base size is below
    2^1021 in absolute value, the handler returns the list of exactly count
    URLs whose element at index [i] is the template filled with the trimmed
    prompt, the width and the height each capped at 1536, and the seed
    [1000 + i]; the URLs are pairwise distinct, as their seeds are.  The
    endpoint gives that answer when the prompt is well-formed Unicode; the
    schema rejects any other prompt before the handler runs. *)
Theorem generate_images_urls (r : GenerateRequest) :
  3 <= len (strip (prompt r)) -> 1 <= count r <= 9 ->
  Z.abs (parse_resolution (or_str (resolution r) default_resolution)) < 2 ^ 1021 ->
  exists w h images,
    dimensions (parse_resolution (or_str (resolution r) default_resolution))
               (dict_get ASPECT_MAP (or_str (aspect r) (lit "1:1")) (1, 1))
    = ret (w, h)
    /\ generate_images r = ret images
    /\ (well_formed (prompt r) = true -> api_generate r = ret images)
    /\ Z.of_nat (List.length images) = count r
    /\ (forall i, 0 <= i < count r ->
          List.nth_error images (Z.to_nat i)
          = Some (lit "https://image.pollinations.ai/prompt/"
                  ++ strip (prompt r)
                  ++ lit "?width=" ++ format_int (Z.min w 1536)
                  ++ lit "&height=" ++ format_int (Z.min h 1536)
                  ++ lit "&seed=" ++ format_int (1000 + i)
                  ++ lit "&nologo=true"))
    /\ NoDup images
    /\ Z.min w 1536 <= 1536 /\ Z.min h 1536 <= 1536.
Proof.
  intros Hp Hc Hb.
  destruct (dimensions_total _ _ (dict_get_ratios (or_str (aspect r) (lit "1:1"))) Hb)
    as (w & h & D).
  exists w, h, (build_images (strip (prompt r)) w h (count r)).
  assert (G : generate_images r
              = ret (build_images (strip (prompt r)) w h (count r))).
  { rewrite generate_images_long by assumption. now rewrite D. }
  split; [exact D|]. split; [exact G|]. split.
  { intros Hw. unfold api_generate.
    rewrite (proj2 (schema_valid_iff r)); [exact G|].
    pose proof (strip_len (prompt r)). split; [exact Hw|lia]. }
  split.
  { rewrite build_images_map, length_map, range_length. lia. }
  split.
  { intros i Hi. rewrite build_images_map, nth_error_map, range_nth by lia.
    cbn [option_map]. rewrite Z2Nat.id by lia. reflexivity. }
  split; [apply build_images_NoDup|]. lia.
Qed.

Lemma generate_images_urls_witness :
  exists w h images,
    dimensions 512 (16, 9) = ret (w, h)
    /\ api_generate a_cat_request = ret images
    /\ Z.of_nat (List.length images) = 2.
Proof.
  destruct (generate_images_urls a_cat_request) as (w & h & images & D & _ & A & L & _).
  - vm_compute. discriminate.
  - vm_compute. intuition discriminate.
  - vm_compute. reflexivity.
  - exists w, h, images.
    split; [exact D|]. split; [apply A; reflexivity | exact L].
Defined.

(** C1 as stated fails: a valid request whose resolution is an integer too
    large for a double gets no URL list, the handler raises
    [OverflowError]. *)
Lemma huge_resolution_overflows :
  3 <= len (strip (prompt huge_request))
  /\ 1 <= count huge_request <= 9
  /\ schema_valid huge_request = true
  /\ generate_images huge_request = raise OverflowError
  /\ api_generate huge_request = raise OverflowError.
Proof. vm_compute. intuition discriminate. Qed.

(** * Further properties of the code *)

(** ** What [int] rejects *)

Lemma skip_blanks_other (cs : list int_char) :
  In IOther cs -> In IOther (skip_blanks cs).
Proof.
  induction cs as [|c cs IH]; [easy|].
  intros [->|H]; [now left|].
  destruct c; cbn [skip_blanks]; try (now right). now apply IH.
Qed.

Lemma scan_digits_other (cs : list int_char) :
  forall prev_us acc n v k rest,
    scan_digits prev_us acc n cs = Some (v, k, rest) ->
    In IOther cs -> In IOther rest.
Proof.
  induction cs as [|c cs IH]; intros prev_us acc n v k rest; cbn [scan_digits].
  - easy.
  - destruct c;
      try (destruct prev_us; [discriminate|]; now intros [= _ _ <-]).
    + intros H [E|Hin]; [discriminate|]. now apply (IH _ _ _ _ _ _ H).
    + destruct prev_us; [discriminate|].
      intros H [E|Hin]; [discriminate|]. now apply (IH _ _ _ _ _ _ H).
Qed.

(** A string with a character that is neither digit, blank, sign nor
    underscore is no integer. *)
Lemma py_int_other (s : str) (c : N) :
  In c s -> int_char_of c = IOther -> py_int s = None.
Proof.
  intros Hin Hc. unfold py_int.
  assert (H0 : In IOther (skip_blanks (List.map int_char_of s))).
  { apply skip_blanks_other. rewrite <- Hc. now apply in_map. }
  assert (G : forall l, In IOther l ->
            match l with
            | IUnderscore :: _ => None
            | _ => match scan_digits false 0 0 l with
                   | None => None
                   | Some (v, n, rest) =>
                     if (Nat.eqb n 0 || Nat.ltb max_str_digits n)%bool
                     then None
                     else match skip_blanks rest with
                          | [] => Some v
                          | _ :: _ => None
                          end
                   end
            end = @None Z).
  { intros l Hl.
    assert (S : match scan_digits false 0 0 l with
                | None => None
                | Some (v, n, rest) =>
                  if (Nat.eqb n 0 || Nat.ltb max_str_digits n)%bool
                  then None
                  else match skip_blanks rest with
                       | [] => Some v
                       | _ :: _ => None
                       end
                end = @None Z).
    { destruct (scan_digits false 0 0 l) as [[[v n] rest]|] eqn:E; [|reflexivity].
      destruct (Nat.eqb n 0 || Nat.ltb max_str_digits n)%bool; [reflexivity|].
      pose proof (skip_blanks_other rest (scan_digits_other _ _ _ _ _ _ _ E Hl)) as R.
      destruct (skip_blanks rest); [easy|reflexivity]. }
    destruct l as [|[] l']; try exact S; reflexivity. }
  assert (Gn : forall l, In IOther l ->
            match l with
            | IUnderscore :: _ => None
            | _ => match scan_digits false 0 0 l with
                   | None => None
                   | Some (v, n, rest) =>
                     if (Nat.eqb n 0 || Nat.ltb max_str_digits n)%bool
                     then None
                     else match skip_blanks rest with
                          | [] => Some (- v)
                          | _ :: _ => None
                          end
                   end
            end = @None Z).
  { intros l Hl. specialize (G l Hl).
    destruct l as [|[] l']; try reflexivity;
      destruct (scan_digits false 0 0 _) as [[[v n] rest]|]; try reflexivity;
      destruct (Nat.eqb n 0 || Nat.ltb max_str_digits n)%bool; try reflexivity;
      destruct (skip_blanks rest); try reflexivity; discriminate. }
  destruct (skip_blanks (List.map int_char_of s)) as [|c0 cs] eqn:E; [easy|].
  destruct c0; cbv beta iota;
    try (apply (G _ H0));
    destruct H0 as [H0|H0]; try discriminate;
    first [apply (G _ H0) | apply (Gn _ H0)].
Qed.

Lemma separator_other (sep : N) : In sep separators -> int_char_of sep = IOther.
Proof.
  cbn [In separators].
  intros [<-|[<-|[<-|[<-|[]]]]]; reflexivity.
Qed.

(** X1. Once the string contains a separator, the whole string is no
    integer, so the final [int(res)] cannot succeed: the result is what [int]
    reads left of the first occurrence of the separator that comes first in
    the preference order, or 512 when that part is no integer.  No second
    separator is tried. *)
Theorem parse_resolution_separator (res : str) (pre post : list N) (sep : N) :
  separators = pre ++ sep :: post ->
  (forall s, In s pre -> ~ In s res) -> In sep res ->
  py_int res = None
  /\ parse_resolution res
     = match py_int (split_head sep res) with
       | Some v => v
       | None => 512
       end.
Proof.
  intros Hseps Hpre Hin.
  assert (Hs : In sep separators)
    by (rewrite Hseps; apply in_or_app; right; now left).
  assert (N0 : py_int res = None)
    by (apply (py_int_other res sep Hin), separator_other, Hs).
  split; [exact N0|].
  unfold parse_resolution.
  rewrite Hseps, loop_first_separator by assumption.
  destruct (py_int (split_head sep res)); [reflexivity|]. now rewrite N0.
Qed.

Lemma parse_resolution_separator_witness :
  parse_resolution (lit "12ax34*56") = 512.
Proof.
  apply (proj2 (parse_resolution_separator (lit "12ax34*56") [times_sign]
                  [88; 42]%N 120%N eq_refl
                  ltac:(intros s [<-|[]]; vm_compute; intuition discriminate)
                  ltac:(vm_compute; auto 10))).
Defined.

(** ** Reading back a formatted integer *)

Lemma lit_string_of_uint (d : Decimal.uint) :
  lit (NilEmpty.string_of_uint d) = List.map (fun x => (48 + x)%N) (uint_digits d).
Proof.
  induction d; cbn [NilEmpty.string_of_uint uint_digits List.map];
    try reflexivity;
    change (lit (String ?a ?s)) with (N_of_ascii a :: lit s);
    rewrite IHd; reflexivity.
Qed.

Lemma uint_digits_small (d : Decimal.uint) :
  Forall (fun x => (x <= 9)%N) (uint_digits d).
Proof. induction d; cbn [uint_digits]; constructor; (lia || assumption). Qed.

Lemma int_char_of_digit (x : N) :
  (x <= 9)%N -> int_char_of (48 + x) = IDigit (Z.of_N x).
Proof.
  intros H. unfold int_char_of, in_range.
  replace (48 + x <? 127)%N with true by (symmetry; apply N.ltb_lt; lia).
  replace (48 <=? 48 + x)%N with true by (symmetry; apply N.leb_le; lia).
  replace (48 + x <=? 57)%N with true by (symmetry; apply N.leb_le; lia).
  cbn [andb]. do 2 f_equal. lia.
Qed.

Lemma scan_digits_run (ds : list N) :
  forall acc n,
    scan_digits false acc n (List.map (fun x => IDigit (Z.of_N x)) ds)
    = Some (List.fold_left push_digit ds acc, (n + List.length ds)%nat, []).
Proof.
  induction ds as [|x ds IH]; intros acc n; cbn [List.map scan_digits].
  - cbn. now rewrite Nat.add_0_r.
  - rewrite IH. cbn [List.fold_left List.length]. unfold push_digit at 2.
    do 3 f_equal. lia.
Qed.

Lemma of_uint_acc_fold (d : Decimal.uint) :
  forall acc,
    Z.pos (Pos.of_uint_acc d acc)
    = List.fold_left push_digit (uint_digits d) (Z.pos acc).
Proof.
  induction d; intros acc; cbn [Pos.of_uint_acc uint_digits List.fold_left];
    try reflexivity; rewrite IHd; f_equal; unfold push_digit; lia.
Qed.

Lemma of_uint_fold (d : Decimal.uint) :
  Z.of_uint d = List.fold_left push_digit (uint_digits d) 0.
Proof.
  unfold Z.of_uint.
  induction d; cbn [Pos.of_uint uint_digits List.fold_left]; try reflexivity;
    try (unfold push_digit at 2; cbn [Z.of_N Z.mul Z.add];
         rewrite <- of_uint_acc_fold; reflexivity).
  exact IHd.
Qed.

Lemma py_int_digits (ds : list N) (negative : bool) :
  ds <> [] -> (List.length ds <= max_str_digits)%nat ->
  Forall (fun x => (x <= 9)%N) ds ->
  py_int ((if negative then [45%N] else [])
          ++ List.map (fun x => (48 + x)%N) ds)
  = Some (if negative
          then - List.fold_left push_digit ds 0
          else List.fold_left push_digit ds 0).
Proof.
  intros Hne Hlen Hds.
  assert (M : List.map int_char_of (List.map (fun x => (48 + x)%N) ds)
              = List.map (fun x => IDigit (Z.of_N x)) ds).
  { rewrite map_map. apply map_ext_in. intros x Hx.
    apply int_char_of_digit. rewrite Forall_forall in Hds. now apply Hds. }
  unfold py_int. rewrite map_app, M.
  destruct ds as [|x ds]; [easy|].
  assert (L : (Nat.eqb (0 + List.length (x :: ds)) 0
               || Nat.ltb max_str_digits (0 + List.length (x :: ds)))%bool = false).
  { apply orb_false_iff. split.
    - apply Nat.eqb_neq. cbn. lia.
    - apply Nat.ltb_ge. cbn [Nat.add]. exact Hlen. }
  pose proof (scan_digits_run (x :: ds) 0 0%nat) as R.
  cbn [List.map] in R.
  destruct negative; cbn [List.map app skip_blanks];
    change (int_char_of 45) with IMinus; cbv beta iota zeta;
    rewrite R, L; reflexivity.
Qed.

Lemma format_int_digits (n : Z) :
  exists ds,
    format_int n = (if n <? 0 then [45%N] else [])
                   ++ List.map (fun x => (48 + x)%N) ds
    /\ ds <> [] /\ Forall (fun x => (x <= 9)%N) ds
    /\ List.fold_left push_digit ds 0 = Z.abs n.
Proof.
  unfold format_int.
  destruct n as [|p|p]; cbn [Z.to_int NilZero.string_of_int Z.ltb Z.compare].
  - exists [0%N]. repeat split; try reflexivity; try easy.
    constructor; [lia|constructor].
  - exists (uint_digits (Pos.to_uint p)).
    pose proof (Unsigned.to_uint_nonnil p) as Hn.
    assert (E : NilZero.string_of_uint (Pos.to_uint p)
                = NilEmpty.string_of_uint (Pos.to_uint p))
      by (destruct (Pos.to_uint p); [easy|reflexivity..]).
    rewrite E, lit_string_of_uint. split; [reflexivity|]. split.
    + destruct (Pos.to_uint p); [easy|discriminate..].
    + split; [apply uint_digits_small|].
      rewrite <- of_uint_fold.
      change (Z.of_uint (Pos.to_uint p)) with (Z.of_int (Z.to_int (Z.pos p))).
      now rewrite DecimalZ.of_to.
  - exists (uint_digits (Pos.to_uint p)).
    pose proof (Unsigned.to_uint_nonnil p) as Hn.
    assert (E : NilZero.string_of_uint (Pos.to_uint p)
                = NilEmpty.string_of_uint (Pos.to_uint p))
      by (destruct (Pos.to_uint p); [easy|reflexivity..]).
    change (lit (String "-" ?s)) with (45%N :: lit s).
    rewrite E, lit_string_of_uint. split; [reflexivity|]. split.
    + destruct (Pos.to_uint p); [easy|discriminate..].
    + split; [apply uint_digits_small|].
      rewrite <- of_uint_fold.
      change (Z.of_uint (Pos.to_uint p)) with (Z.of_int (Z.to_int (Z.pos p))).
      now rewrite DecimalZ.of_to.
Qed.

(** [int(str(n))] is [n], as long as [str(n)] stays within the digit limit. *)
Lemma py_int_format (n : Z) :
  (List.length (format_int n) <= max_str_digits)%nat ->
  py_int (format_int n) = Some n.
Proof.
  intros Hlen. destruct (format_int_digits n) as (ds & E & Hne & Hds & V).
  rewrite E in *. rewrite py_int_digits; try assumption.
  - rewrite V. f_equal. destruct (Z.ltb_spec n 0); lia.
  - rewrite length_app, length_map in Hlen. lia.
Qed.

Lemma format_int_chars (n : Z) (c : N) :
  In c (format_int n) -> c = 45%N \/ (48 <= c <= 57)%N.
Proof.
  destruct (format_int_digits n) as (ds & E & _ & Hds & _). rewrite E.
  intros H. apply in_app_or in H. destruct H as [H|H].
  - left. destruct (n <? 0); [|easy]. now destruct H.
  - right. apply in_map_iff in H. destruct H as (x & <- & Hx).
    rewrite Forall_forall in Hds. specialize (Hds x Hx). lia.
Qed.

Lemma format_int_no_separator (n : Z) (sep : N) :
  In sep separators -> ~ In sep (format_int n).
Proof.
  intros Hs Hin. apply format_int_chars in Hin.
  cbn [In separators] in Hs. unfold times_sign in Hs.
  destruct Hs as [<-|[<-|[<-|[<-|[]]]]]; lia.
Qed.

(** X2. Reading back a written size: the decimal form of an integer [w] of
    at most 4300 characters, followed by a separator and any text without a
    separator of higher preference, is parsed to [w]. *)
Theorem parse_resolution_formatted
  (w : Z) (pre post : list N) (sep : N) (rest : str) :
  separators = pre ++ sep :: post ->
  (forall s, In s pre -> ~ In s rest) ->
  (List.length (format_int w) <= max_str_digits)%nat ->
  parse_resolution (format_int w ++ sep :: rest) = w.
Proof.
  intros Hseps Hpre Hlen.
  assert (Hs : In sep separators)
    by (rewrite Hseps; apply in_or_app; right; now left).
  assert (ND : NoDup separators) by (repeat constructor; cbn; intuition discriminate).
  unfold parse_resolution. rewrite Hseps, loop_first_separator.
  - rewrite split_head_app by (now apply format_int_no_separator).
    now rewrite py_int_format.
  - intros s Hin Hs'. apply in_app_or in Hs'. destruct Hs' as [H|[H|H]].
    + apply (format_int_no_separator w s); [|assumption].
      rewrite Hseps. apply in_or_app. now left.
    + subst s. rewrite Hseps in ND. apply NoDup_remove_2 in ND.
      apply ND, in_or_app. now left.
    + now apply (Hpre s).
  - apply in_or_app. right. now left.
Qed.

Lemma parse_resolution_formatted_witness :
  parse_resolution (format_int 1024 ++ 120%N :: lit "768 px") = 1024.
Proof.
  apply (parse_resolution_formatted 1024 [times_sign] [88; 42]%N 120%N
           (lit "768 px") eq_refl).
  - intros s [<-|[]]. vm_compute. intuition discriminate.
  - vm_compute. lia.
Defined.

(** X3. A bare integer: the decimal form of [n], of at most 4300
    characters, is parsed to [n], also when [n] is zero or negative. *)
Theorem parse_resolution_bare (n : Z) :
  (List.length (format_int n) <= max_str_digits)%nat ->
  parse_resolution (format_int n) = n.
Proof.
  intros Hlen. unfold parse_resolution.
  rewrite loop_no_separator by (intros s Hs; now apply format_int_no_separator).
  now rewrite py_int_format.
Qed.

Lemma parse_resolution_bare_witness : parse_resolution (format_int (-768)) = -768.
Proof. apply parse_resolution_bare. vm_compute. lia. Defined.

(** ** Negative base sizes *)

Lemma binary_round_aux_opp (s : bool) (m e : Z) (l : location) :
  binary_round_aux prec emax (negb s) m e l
  = SFopp (binary_round_aux prec emax s m e l).
Proof.
  unfold binary_round_aux.
  destruct (shr_fexp prec emax m e l) as [mrs' e'].
  destruct (shr_fexp prec emax _ e' loc_Exact) as [mrs'' e''].
  destruct (shr_m mrs''); try reflexivity.
  now destruct (e'' <=? emax - prec).
Qed.

Lemma binary_normalize_opp (n : Z) :
  binary_normalize prec emax (- n) 0 false
  = match n with
    | 0 => S754_zero false
    | _ => SFopp (binary_normalize prec emax n 0 false)
    end.
Proof.
  destruct n as [|p|p]; cbn [Z.opp binary_normalize]; try reflexivity;
    unfold binary_round; destruct (shl_align _ _ _) as [mz ez].
  - apply (binary_round_aux_opp false).
  - rewrite (binary_round_aux_opp false). cbn [negb].
    destruct (binary_round_aux prec emax false (Z.pos mz) ez loc_Exact)
      as [s|s| |s m e]; cbn [SFopp]; try reflexivity; now destruct s.
Qed.

Lemma SFmul_opp (x y : spec_float) :
  SFmul prec emax (SFopp x) y = SFopp (SFmul prec emax x y).
Proof.
  destruct x as [sx|sx| |sx mx ex], y as [sy|sy| |sy my ey];
    cbn [SFopp SFmul]; try reflexivity;
    try (now destruct sx, sy).
  replace (xorb (negb sx) sy) with (negb (xorb sx sy)) by (now destruct sx, sy).
  apply binary_round_aux_opp.
Qed.

Lemma int_of_float_opp (x : spec_float) :
  int_of_float (SFopp x) = fmap Z.opp (int_of_float x).
Proof.
  destruct x as [s|s| |s m e]; cbn; try reflexivity.
  unfold ret. f_equal. destruct s; cbn [negb cond_Zopp]; lia.
Qed.

Lemma scale_opp (n : Z) (q : spec_float) :
  (x <- int_mul_float (- n) q ;; int_of_float x)
  = fmap Z.opp (x <- int_mul_float n q ;; int_of_float x).
Proof.
  unfold int_mul_float, float_of_int. rewrite binary_normalize_opp.
  destruct n as [|p|p].
  - cbn [binary_normalize bind ret].
    destruct (int_of_float (SFmul prec emax (S754_zero false) q)) eqn:E;
      cbn; [|reflexivity].
    destruct q as [sq|sq| |sq mq eq]; cbn in E; try discriminate;
      injection E as <-; reflexivity.
  - destruct (binary_normalize prec emax (Z.pos p) 0 false) as [s|s| |s m e];
      cbn [SFopp bind ret raise]; try reflexivity;
      rewrite <- int_of_float_opp, <- SFmul_opp; reflexivity.
  - destruct (binary_normalize prec emax (Z.neg p) 0 false) as [s|s| |s m e];
      cbn [SFopp bind ret raise]; try reflexivity;
      rewrite <- int_of_float_opp, <- SFmul_opp; reflexivity.
Qed.

(** X4. The dimensions of a negated base size are the negated dimensions,
    for every base size and ratio, errors included: [int] rounds the scaled
    side towards zero, so for a negative base it is not the floor. *)
Theorem dimensions_opp (base : Z) (rat : Z * Z) :
  dimensions (- base) rat = fmap neg_pair (dimensions base rat).
Proof.
  unfold dimensions.
  destruct (fst rat >=? snd rat).
  - destruct (true_div (fst rat) (snd rat)) as [q|e]; [|reflexivity].
    cbn [bind]. pose proof (scale_opp base q) as E.
    destruct (int_mul_float (- base) q) as [x'|e'],
             (int_mul_float base q) as [x|e]; cbn [bind fmap ret] in *.
    + destruct (int_of_float x') as [v'|], (int_of_float x) as [v|];
        cbn in *; try discriminate; injection E as ->; reflexivity.
    + destruct (int_of_float x') as [v'|]; cbn in *; [discriminate|].
      now injection E as ->.
    + destruct (int_of_float x) as [v|]; cbn in *; [discriminate|].
      now injection E as ->.
    + now injection E as ->.
  - destruct (true_div (snd rat) (fst rat)) as [q|e]; [|reflexivity].
    cbn [bind]. pose proof (scale_opp base q) as E.
    destruct (int_mul_float (- base) q) as [x'|e'],
             (int_mul_float base q) as [x|e]; cbn [bind fmap ret] in *.
    + destruct (int_of_float x') as [v'|], (int_of_float x) as [v|];
        cbn in *; try discriminate; injection E as ->; reflexivity.
    + destruct (int_of_float x') as [v'|]; cbn in *; [discriminate|].
      now injection E as ->.
    + destruct (int_of_float x) as [v|]; cbn in *; [discriminate|].
      now injection E as ->.
    + now injection E as ->.
Qed.

(** ** Every outcome of the arithmetic *)

Lemma binary_round_cases (s : bool) (b : positive) :
  binary_round prec emax s b 0 = S754_infinity s
  \/ exists B e,
       binary_round prec emax s b 0 = S754_finite s B e
       /\ 2 ^ 52 <= Z.pos B < 2 ^ 53 /\ -52 <= e
       /\ (2 ^ 50 <= Z.pos b -> -2 <= e).
Proof.
  destruct (Z_lt_le_dec (Z.pos b) (2 ^ 53)) as [S|L].
  - right. destruct (binary_round_small s b S) as (B & j & E & Hj & EB & HB).
    exists B, (- j). split; [exact E|]. split; [exact HB|]. split; [lia|].
    intros Hb. destruct (Z_le_gt_dec j 2); [lia|].
    assert (2 ^ 3 <= 2 ^ j) by (apply Z.pow_le_mono_r; lia).
    change (2 ^ 3) with 8 in *. nia.
  - pose proof (digits2_pos_bounds b) as [Dl Du].
    set (d := Z.pos (digits2_pos b)) in *.
    assert (Hd : 54 <= d).
    { destruct (Z_le_gt_dec 54 d); [assumption|].
      assert (2 ^ d <= 2 ^ 53) by (apply Z.pow_le_mono_r; lia). lia. }
    unfold binary_round. rewrite Z.add_0_r. fold d.
    rewrite fexp_normal by lia. unfold shl_align.
    replace (d - 53 - 0) with (d - 53) by lia.
    destruct (d - 53) as [|p|p] eqn:Ed; try lia.
    assert (Hk : 0 < Z.pos p) by lia.
    assert (Hm : 2 ^ (52 + Z.pos p) <= Z.pos b < 2 ^ (53 + Z.pos p)).
    { replace (52 + Z.pos p) with (d - 1) by lia.
      replace (53 + Z.pos p) with d by lia. lia. }
    rewrite (binary_round_aux_shift s b 0 (Z.pos p) Hk Hm) by lia.
    pose proof (rne_bounds (Z.pos b) (Z.pos p) Hk Hm) as Bd.
    destruct (Z.ltb_spec (rne (Z.pos b) (Z.pos p)) (2 ^ 53)).
    + destruct (Z.leb_spec (0 + Z.pos p) 971); [right|now left].
      exists (Z.to_pos (rne (Z.pos b) (Z.pos p))), (0 + Z.pos p).
      rewrite Z2Pos.id by lia. repeat split; lia.
    + destruct (Z.leb_spec (0 + Z.pos p + 1) 971); [right|now left].
      exists (Z.to_pos (2 ^ 52)), (0 + Z.pos p + 1).
      rewrite Z2Pos.id by lia. repeat split; lia.
Qed.

Lemma mul_cases (s sq : bool) (B mq : positive) (eb : Z) :
  2 ^ 52 <= Z.pos B < 2 ^ 53 -> 2 ^ 52 <= Z.pos mq < 2 ^ 53 -> -52 <= eb ->
  int_of_float (SFmul prec emax (S754_finite s B eb) (S754_finite sq mq (-52)))
  = raise OverflowError
  \/ exists v,
       int_of_float (SFmul prec emax (S754_finite s B eb) (S754_finite sq mq (-52)))
       = ret (cond_Zopp (xorb s sq) v)
       /\ (-2 <= eb -> 2 ^ 50 <= v).
Proof.
  intros HB Hq He.
  assert (P : 2 ^ 104 <= Z.pos B * Z.pos mq < 2 ^ 106).
  { change (2 ^ 104) with (2 ^ 52 * 2 ^ 52).
    change (2 ^ 106) with (2 ^ 53 * 2 ^ 53). nia. }
  assert (K : exists k, (k = 52 \/ k = 53)
                /\ 2 ^ (52 + k) <= Z.pos B * Z.pos mq < 2 ^ (53 + k)).
  { destruct (Z_lt_le_dec (Z.pos B * Z.pos mq) (2 ^ 105)).
    - exists 52. split; [now left|]. simpl (52 + 52). simpl (53 + 52). lia.
    - exists 53. split; [now right|]. simpl (52 + 53). simpl (53 + 53). lia. }
  destruct K as (k & Hk & Hm).
  cbn [SFmul]. rewrite <- Pos2Z.inj_mul in *.
  rewrite (binary_round_aux_shift (xorb s sq) (B * mq) (eb + -52) k)
    by (assumption || lia).
  pose proof (rne_bounds (Z.pos (B * mq)) k ltac:(lia) Hm) as Bd.
  assert (Sh : forall M t, 2 ^ 52 <= M -> -2 <= t -> 2 ^ 50 <= Z.shiftl M t).
  { intros M t HM Ht. destruct (Z_le_gt_dec 0 t).
    - rewrite Z.shiftl_mul_pow2 by lia.
      assert (1 <= 2 ^ t) by (apply (Z.pow_le_mono_r 2 0 t); lia). nia.
    - rewrite Z.shiftl_div_pow2 by lia.
      assert (2 ^ (- t) <= 2 ^ 2) by (apply Z.pow_le_mono_r; lia).
      assert (0 < 2 ^ (- t)) by (apply Z.pow_pos_nonneg; lia).
      apply Z.div_le_lower_bound; [lia|]. change (2 ^ 2) with 4 in *. nia. }
  destruct (Z.ltb_spec (rne (Z.pos (B * mq)) k) (2 ^ 53)).
  - destruct (Z.leb_spec (eb + -52 + k) 971); [right|now left].
    eexists. cbn [int_of_float]. split; [reflexivity|].
    intros H2. rewrite Z2Pos.id by lia. apply Sh; lia.
  - destruct (Z.leb_spec (eb + -52 + k + 1) 971); [right|now left].
    eexists. cbn [int_of_float]. split; [reflexivity|].
    intros H2. rewrite Z2Pos.id by lia. apply Sh; lia.
Qed.

Lemma scale_cases (n : Z) (mq : positive) :
  2 ^ 52 <= Z.pos mq < 2 ^ 53 ->
  (x <- int_mul_float n (S754_finite false mq (-52)) ;; int_of_float x)
  = raise OverflowError
  \/ exists v,
       (x <- int_mul_float n (S754_finite false mq (-52)) ;; int_of_float x)
       = ret v
       /\ (2 ^ 50 <= n -> 2 ^ 50 <= v).
Proof.
  intros Hq. unfold int_mul_float, float_of_int.
  destruct n as [|b|b]; cbn [binary_normalize].
  - right. exists 0. split; [reflexivity|lia].
  - destruct (binary_round_cases false b) as [->|(B & e & -> & HB & He & H50)].
    + now left.
    + cbn [bind ret].
      destruct (mul_cases false false B mq e HB Hq He) as [->|(v & -> & Hv)];
        [now left|right].
      exists v. split; [reflexivity|]. intros H. apply Hv, H50, H.
  - destruct (binary_round_cases true b) as [->|(B & e & -> & HB & He & H50)].
    + now left.
    + cbn [bind ret].
      destruct (mul_cases true false B mq e HB Hq He) as [->|(v & -> & Hv)];
        [now left|right].
      eexists. split; [reflexivity|]. lia.
Qed.

Lemma dimensions_fmap (base : Z) (rat : Z * Z) :
  dimensions base rat
  = if fst rat >=? snd rat then
      fmap (fun w => (w, base))
           (q <- true_div (fst rat) (snd rat) ;;
            x <- int_mul_float base q ;; int_of_float x)
    else
      fmap (fun h => (base, h))
           (q <- true_div (snd rat) (fst rat) ;;
            x <- int_mul_float base q ;; int_of_float x).
Proof.
  unfold dimensions, fmap.
  destruct (fst rat >=? snd rat);
    (destruct (true_div _ _) as [q|]; [|reflexivity]); cbn [bind];
    (destruct (int_mul_float base q) as [x|]; [|reflexivity]); cbn [bind];
    now destruct (int_of_float x).
Qed.

Lemma dimensions_cases (base : Z) (rat : Z * Z) :
  In rat ratios ->
  dimensions base rat = raise OverflowError
  \/ exists w h,
       dimensions base rat = ret (w, h)
       /\ (2 ^ 50 <= base -> 2 ^ 50 <= w /\ 2 ^ 50 <= h).
Proof.
  intros Hr. rewrite dimensions_fmap.
  assert (Q : forall num den mq,
             In (num, den, mq) quotients ->
             (q <- true_div num den ;;
              x <- int_mul_float base q ;; int_of_float x) = raise OverflowError
             \/ exists v, (q <- true_div num den ;;
                           x <- int_mul_float base q ;; int_of_float x) = ret v
                          /\ (2 ^ 50 <= base -> 2 ^ 50 <= v)).
  { intros num den mq Hin. rewrite (true_div_quotients _ _ _ Hin). cbn [bind ret].
    apply scale_cases. quotient_cases Hin; lia. }
  cbn [In ratios] in Hr.
  repeat (destruct Hr as [Hr|Hr]; [subst rat|]); [..|contradiction];
    cbn [fst snd].
  - change (1 >=? 1) with true. cbv iota.
    destruct (Q 1 1 _ ltac:(cbn; auto)) as [->|(v & -> & Hv)]; [now left|right].
    exists v, base. split; [reflexivity|]. intros H. split; [auto|lia].
  - change (16 >=? 9) with true. cbv iota.
    destruct (Q 16 9 _ ltac:(cbn; auto)) as [->|(v & -> & Hv)]; [now left|right].
    exists v, base. split; [reflexivity|]. intros H. split; [auto|lia].
  - change (9 >=? 16) with false. cbv iota.
    destruct (Q 16 9 _ ltac:(cbn; auto)) as [->|(v & -> & Hv)]; [now left|right].
    exists base, v. split; [reflexivity|]. intros H. split; [lia|auto].
  - change (4 >=? 3) with true. cbv iota.
    destruct (Q 4 3 _ ltac:(cbn; auto)) as [->|(v & -> & Hv)]; [now left|right].
    exists v, base. split; [reflexivity|]. intros H. split; [auto|lia].
Qed.

(** X5. The endpoint has four outcomes and no other: the rejection by the
    schema, HTTP 400 "Prompt is too short.", [OverflowError] from the
    dimension arithmetic, or a list of exactly [count] URLs.  It never raises
    [ValueError] or [ZeroDivisionError] and never answers with another HTTP
    error of its own. *)
Theorem endpoint_outcomes (r : GenerateRequest) :
  api_generate r = raise RequestValidationError
  \/ api_generate r = raise (HTTPException 400 too_short)
  \/ api_generate r = raise OverflowError
  \/ exists w h,
       api_generate r = ret (build_images (strip (prompt r)) w h (count r))
       /\ Z.of_nat (List.length (build_images (strip (prompt r)) w h (count r)))
          = count r.
Proof.
  unfold api_generate. destruct (schema_valid r) eqn:V; [|now left].
  right. apply schema_valid_iff in V. destruct V as (_ & _ & Hc).
  destruct (Z_lt_le_dec (len (strip (prompt r))) 3) as [S|L].
  - left. now apply generate_images_short.
  - right. rewrite generate_images_long by assumption.
    destruct (dimensions_cases
                (parse_resolution (or_str (resolution r) default_resolution))
                (dict_get ASPECT_MAP (or_str (aspect r) (lit "1:1")) (1, 1))
                (dict_get_ratios _)) as [->|(w & h & -> & _)]; [now left|right].
    exists w, h. split; [reflexivity|].
    rewrite build_images_map, length_map, range_length. lia.
Qed.

Lemma ratios_tokens (rat : Z * Z) :
  In rat ratios -> exists tok, In (tok, rat) ASPECT_MAP.
Proof.
  cbn [In ratios].
  intros H. repeat (destruct H as [<-|H]; [eexists; cbn; eauto 6|]).
  contradiction.
Qed.

Lemma dimensions_saturate (base : Z) (rat : Z * Z) :
  In rat ratios -> 1536 <= base < 2 ^ 1021 ->
  exists w h, dimensions base rat = ret (w, h) /\ 1536 <= w /\ 1536 <= h.
Proof.
  intros Hr Hb. destruct (Z_lt_le_dec base (2 ^ 50)) as [S|L].
  - destruct (ratios_tokens rat Hr) as (tok & Ht). destruct rat as [num den].
    rewrite (dimensions_exact base tok num den) by (assumption || lia).
    assert (P : 0 < num /\ 0 < den).
    { cbn [In ratios] in Hr.
      repeat (destruct Hr as [Hr|Hr]; [injection Hr as <- <-; lia|]).
      contradiction. }
    destruct (Z.geb_spec num den).
    + exists (base * num / den), base. split; [reflexivity|].
      assert (base <= base * num / den) by (apply Z.div_le_lower_bound; nia).
      lia.
    + exists base, (base * den / num). split; [reflexivity|].
      assert (base <= base * den / num) by (apply Z.div_le_lower_bound; nia).
      lia.
  - destruct (dimensions_total base rat Hr ltac:(lia)) as (w & h & E).
    destruct (dimensions_cases base rat Hr) as [E'|(w' & h' & E' & H50)].
    + rewrite E in E'. discriminate.
    + rewrite E in E'. injection E' as <- <-.
      exists w, h. split; [exact E|]. specialize (H50 L). lia.
Qed.

(** X6. The cap saturates: for a trimmed prompt of at least 3 characters and
    a base size from 1536 up to (not including) 2^1021, every URL asks for
    [width=1536&height=1536], whatever the aspect token and the base size. *)
Theorem large_resolution_saturates (r : GenerateRequest) :
  3 <= len (strip (prompt r)) ->
  1536 <= parse_resolution (or_str (resolution r) default_resolution) < 2 ^ 1021 ->
  generate_images r
  = ret (List.map (fun i => image_url (strip (prompt r)) 1536 1536 (1000 + i))
                  (range (count r))).
Proof.
  intros Hp Hb. rewrite generate_images_long by assumption.
  destruct (dimensions_saturate _ _
              (dict_get_ratios (or_str (aspect r) (lit "1:1"))) Hb)
    as (w & h & -> & Hw & Hh).
  unfold bind, ret. cbn [fst snd]. rewrite build_images_map. f_equal.
  apply map_ext. intros i. unfold image_url.
  now rewrite !Z.min_r by lia.
Qed.

Lemma large_resolution_saturates_witness :
  generate_images wide_request
  = ret [ lit "https://image.pollinations.ai/prompt/a cat?width=1536&height=1536&seed=1000&nologo=true" ].
Proof.
  rewrite (large_resolution_saturates wide_request).
  - reflexivity.
  - vm_compute. discriminate.
  - vm_compute. intuition discriminate.
Defined.

(** X7. The ratio (9, 16) gives the dimensions of (16, 9) with width and
    height exchanged, for every base size, errors included. *)
Theorem portrait_is_transposed (base : Z) :
  dimensions base (9, 16) = fmap swap_pair (dimensions base (16, 9)).
Proof.
  rewrite !dimensions_fmap. cbn [fst snd].
  change (9 >=? 16) with false. change (16 >=? 9) with true. cbv iota.
  now destruct (q <- true_div 16 9 ;; x <- int_mul_float base q ;; int_of_float x).
Qed.

(** ** Padding of the prompt *)

Lemma lstrip_pad (l s : str) : all_space l -> lstrip (l ++ s) = lstrip s.
Proof.
  induction 1 as [|c l Hc Hl IH]; [reflexivity|].
  cbn [app lstrip]. now rewrite Hc.
Qed.

Lemma rstrip_pad (s r : str) : all_space r -> rstrip (s ++ r) = rstrip s.
Proof.
  intros H. unfold rstrip. rewrite rev_app_distr, lstrip_pad; [reflexivity|].
  unfold all_space. apply Forall_rev. exact H.
Qed.

Lemma strip_pad (l s r : str) :
  all_space l -> all_space r -> strip (l ++ s ++ r) = strip s.
Proof.
  intros Hl Hr. unfold strip. rewrite lstrip_pad by assumption.
  induction s as [|c s IH].
  - cbn [app]. rewrite <- (app_nil_r r), lstrip_pad by assumption. reflexivity.
  - cbn [app lstrip]. destruct (isspace c); [exact IH|].
    now rewrite app_comm_cons, rstrip_pad.
Qed.

Lemma isspace_not_surrogate (c : N) : isspace c = true -> is_surrogate c = false.
Proof.
  intros H. unfold is_surrogate, in_range. apply andb_false_iff. left.
  apply N.leb_gt. unfold isspace, in_range in H.
  repeat (apply orb_prop in H; destruct H as [H|H]);
    try (apply andb_prop in H; destruct H as [_ H]; apply N.leb_le in H; lia);
    apply N.eqb_eq in H; lia.
Qed.

Lemma well_formed_pad (l p t : str) :
  all_space l -> all_space t -> well_formed (l ++ p ++ t) = well_formed p.
Proof.
  intros Hl Ht.
  assert (W : forall s, all_space s -> well_formed s = true).
  { intros s Hs. apply forallb_forall. intros c Hc.
    unfold all_space in Hs. rewrite Forall_forall in Hs.
    now rewrite (isspace_not_surrogate c (Hs c Hc)). }
  unfold well_formed in *. rewrite !forallb_app, (W l Hl), (W t Ht).
  now rewrite andb_true_r.
Qed.

Lemma generate_images_by_strip (r r' : GenerateRequest) :
  strip (prompt r) = strip (prompt r') -> aspect r = aspect r' ->
  resolution r = resolution r' -> count r = count r' ->
  generate_images r = generate_images r'.
Proof.
  intros Hp Ha Hr Hc.
  destruct (Z_lt_le_dec (len (strip (prompt r))) 3) as [S|L].
  - rewrite !generate_images_short; congruence.
  - rewrite !generate_images_long by congruence. now rewrite Hp, Ha, Hr, Hc.
Qed.

(** X8. White space around the prompt is ignored by the handler: padding
    the prompt on either side leaves its outcome unchanged, and the outcome
    of the endpoint too when the unpadded prompt has at least 3
    characters. *)
Theorem prompt_padding (r : GenerateRequest) (l p t : str) :
  all_space l -> all_space t ->
  generate_images (with_prompt r (l ++ p ++ t)) = generate_images (with_prompt r p)
  /\ (3 <= len p ->
      api_generate (with_prompt r (l ++ p ++ t)) = api_generate (with_prompt r p)).
Proof.
  intros Hl Ht.
  assert (G : generate_images (with_prompt r (l ++ p ++ t))
              = generate_images (with_prompt r p)).
  { apply generate_images_by_strip; try reflexivity.
    cbn [prompt with_prompt]. now apply strip_pad. }
  split; [exact G|]. intros Hp. apply api_generate_congr; [|exact G].
  unfold schema_valid, len. cbn [prompt count with_prompt].
  rewrite well_formed_pad by assumption.
  rewrite !length_app. unfold len in Hp.
  replace (3 <=? Z.of_nat (List.length p)) with true
    by (symmetry; apply Z.leb_le; lia).
  replace (3 <=? Z.of_nat (List.length l + (List.length p + List.length t)))
    with true by (symmetry; apply Z.leb_le; lia).
  reflexivity.
Qed.

Lemma prompt_padding_witness :
  api_generate (with_prompt a_cat_request (lit "  " ++ lit "a cat" ++ [10%N]))
  = api_generate (with_prompt a_cat_request (lit "a cat")).
Proof.
  apply (prompt_padding a_cat_request (lit "  ") (lit "a cat") [10%N]).
  - repeat constructor.
  - repeat constructor.
  - vm_compute. discriminate.
Defined.

(** ** The diagnostic endpoint [/test] *)

(** X9. In the answer of [/test], [database_url] and [database_name] are
    decided by the environment variables alone, "Set" exactly when the
    variable is set and not empty: what the [try] block wrote there
    ("Configured", [db.name]) never reaches the caller.  [backend] is always
    "Running". *)
Theorem test_database_env_fields (env : environment) :
  database_url (test_database env)
  = Some (if env_set (env_DATABASE_URL env) then set_text else not_set_text)
  /\ database_name (test_database env)
     = Some (if env_set (env_DATABASE_NAME env) then set_text else not_set_text)
  /\ backend (test_database env) = check_mark ++ lit " Running".
Proof.
  unfold test_database, probe_database.
  destruct (import_db env) as [e|[db|]].
  - destruct (is_import_error e); repeat split.
  - destruct (name_attribute db) as [|v|e].
    + destruct (list_collection_names db); repeat split.
    + destruct (list_collection_names db); repeat split.
    + destruct (is_import_error e); repeat split.
  - repeat split.
Qed.

(** X10. [collections] never has more than 10 entries, and it is not empty
    only when the import gave a [db] whose listing succeeded: it is then the
    first 10 names listed, and [database] reads "Connected & Working". *)
Theorem test_database_collections (env : environment) :
  (List.length (collections (test_database env)) <= 10)%nat
  /\ (collections (test_database env) <> [] ->
      exists db names,
        import_db env = Imported (Some db)
        /\ list_collection_names db = inl names
        /\ collections (test_database env) = List.firstn 10 names
        /\ database (test_database env) = working_text).
Proof.
  unfold test_database, probe_database.
  destruct (import_db env) as [e|[db|]].
  - destruct (is_import_error e); report_simpl; split; (cbn; lia) || easy.
  - destruct (name_attribute db) as [|v|e].
    + destruct (list_collection_names db) as [names|e] eqn:L; report_simpl.
      * split; [apply firstn_le_length|]. intros _. exists db, names. auto.
      * split; (cbn; lia) || easy.
    + destruct (list_collection_names db) as [names|e] eqn:L; report_simpl.
      * split; [apply firstn_le_length|]. intros _. exists db, names. auto.
      * split; (cbn; lia) || easy.
    + destruct (is_import_error e); report_simpl; split; (cbn; lia) || easy.
  - report_simpl. split; (cbn; lia) || easy.
Qed.

Lemma status_not_connected : lit "Not Connected" <> lit "Connected".
Proof. vm_compute. discriminate. Qed.

(** X11. [connection_status] is "Connected" exactly when the import gave a
    [db] other than [None] whose [name] could be read (or is absent), and
    "Not Connected" otherwise, whether or not the listing then fails;
    [database] reads "Connected & Working" exactly when the listing succeeded
    as well. *)
Theorem test_database_status (env : environment) :
  (connection_status (test_database env) = lit "Connected"
   <-> exists db, import_db env = Imported (Some db)
                  /\ forall e, name_attribute db <> AttributeRaises e)
  /\ (connection_status (test_database env) = lit "Connected"
      \/ connection_status (test_database env) = lit "Not Connected")
  /\ (database (test_database env) = working_text
      <-> exists db names,
            import_db env = Imported (Some db)
            /\ (forall e, name_attribute db <> AttributeRaises e)
            /\ list_collection_names db = inl names).
Proof.
  unfold test_database, probe_database.
  destruct (import_db env) as [e|[db|]].
  - assert (C : connection_status
                  (if is_import_error e
                   then set_database initial_report
                          (cross_mark
                           ++ lit " Database module not found (run enable-database first)")
                   else set_database initial_report
                          (cross_mark ++ lit " Error: "
                           ++ List.firstn 50 (exc_text e)))
                = lit "Not Connected") by (now destruct (is_import_error e)).
    report_simpl. rewrite C. split; [|split].
    + split; [intros H; now apply status_not_connected in H|].
      intros (db & [=] & _).
    + now right.
    + split; [|intros (db & names & [=] & _)].
      destruct (is_import_error e); report_simpl; intros H; head_clash H.
  - destruct (name_attribute db) as [|v|e] eqn:A.
    + destruct (list_collection_names db) as [names|e] eqn:L; report_simpl;
        (split; [|split]); try (now left).
      * split; [|reflexivity]. intros _. exists db. split; [reflexivity|].
        intros e0 H0. rewrite A in H0. discriminate.
      * split; [|reflexivity]. intros _. exists db, names.
        split; [reflexivity|].
        split; [intros e0 H0; rewrite A in H0; discriminate | exact L].
      * split; [|reflexivity]. intros _. exists db. split; [reflexivity|].
        intros e0 H0. rewrite A in H0. discriminate.
      * split; [intros H; head_clash H|].
        intros (db' & names & [= <-] & _ & Hl). congruence.
    + destruct (list_collection_names db) as [names|e] eqn:L; report_simpl;
        (split; [|split]); try (now left).
      * split; [|reflexivity]. intros _. exists db. split; [reflexivity|].
        intros e0 H0. rewrite A in H0. discriminate.
      * split; [|reflexivity]. intros _. exists db, names.
        split; [reflexivity|].
        split; [intros e0 H0; rewrite A in H0; discriminate | exact L].
      * split; [|reflexivity]. intros _. exists db. split; [reflexivity|].
        intros e0 H0. rewrite A in H0. discriminate.
      * split; [intros H; head_clash H|].
        intros (db' & names & [= <-] & _ & Hl). congruence.
    + assert (C : forall r1 r2 : report,
                connection_status r1 = lit "Not Connected" ->
                connection_status r2 = lit "Not Connected" ->
                connection_status (if is_import_error e then r1 else r2)
                = lit "Not Connected") by (now destruct (is_import_error e)).
      report_simpl. rewrite C by reflexivity. split; [|split].
      * split; [intros H; now apply status_not_connected in H|].
        intros (db' & [= <-] & Hn). now elim (Hn e).
      * now right.
      * split; [|intros (db' & names & [= <-] & Hn & _); now elim (Hn e)].
        destruct (is_import_error e); report_simpl; intros H; head_clash H.
  - report_simpl. split; [|split].
    + split; [intros H; now apply status_not_connected in H|].
      intros (db & [=] & _).
    + now right.
    + split; [intros H; head_clash H|intros (db & names & [=] & _)].
Qed.

Lemma firstn_50_length (s : str) : (List.length (List.firstn 50 s) <= 50)%nat.
Proof. rewrite length_firstn. lia. Qed.

(** X12. The [database] message never exceeds 75 characters: the text of an
    exception is cut to its first 50 characters. *)
Theorem test_database_text_bounded (env : environment) :
  len (database (test_database env)) <= 75.
Proof.
  unfold test_database, probe_database, len.
  destruct (import_db env) as [e|[db|]].
  - pose proof (firstn_50_length (exc_text e)).
    destruct (is_import_error e); report_simpl;
      rewrite ?length_app; cbn [List.length cross_mark]; 
      change (List.length (lit " Error: ")) with 8%nat;
      change (List.length (lit " Database module not found (run enable-database first)")) with 54%nat;
      lia.
  - destruct (name_attribute db) as [|v|e].
    + destruct (list_collection_names db) as [names|e]; report_simpl.
      * vm_compute. discriminate.
      * pose proof (firstn_50_length (exc_text e)).
        rewrite ?length_app. cbn [List.length warning_sign].
        change (List.length (lit "  Connected but Error: ")) with 23%nat. lia.
    + destruct (list_collection_names db) as [names|e]; report_simpl.
      * vm_compute. discriminate.
      * pose proof (firstn_50_length (exc_text e)).
        rewrite ?length_app. cbn [List.length warning_sign].
        change (List.length (lit "  Connected but Error: ")) with 23%nat. lia.
    + pose proof (firstn_50_length (exc_text e)).
      destruct (is_import_error e); report_simpl;
        rewrite ?length_app; cbn [List.length cross_mark];
        change (List.length (lit " Error: ")) with 8%nat;
        change (List.length (lit " Database module not found (run enable-database first)")) with 54%nat;
        lia.
  - report_simpl. vm_compute. discriminate.
Qed.

(** X13. The port of the server: a [PORT] variable holding the decimal form
    of [n], of at most 4300 characters, gives the port [n]. *)
Theorem startup_port_round_trip (n : Z) :
  (List.length (format_int n) <= max_str_digits)%nat ->
  startup_port (Some (format_int n)) = ret n.
Proof.
  intros H. unfold startup_port. now rewrite py_int_format.
Qed.

Lemma startup_port_round_trip_witness :
  startup_port (Some (format_int 8080)) = ret 8080.
Proof. apply startup_port_round_trip. vm_compute. lia. Defined.

Lemma test_database_collections_witness :
  exists db names,
    import_db listing_environment = Imported (Some db)
    /\ list_collection_names db = inl names
    /\ collections (test_database listing_environment) = List.firstn 10 names
    /\ database (test_database listing_environment) = working_text.
Proof.
  apply (proj2 (test_database_collections listing_environment)).
  vm_compute. discriminate.
Defined.

(** X14. For a base size below 2^1021 in absolute value, the endpoint
    answers with a list of URLs exactly when the prompt is well-formed
    Unicode, the trimmed prompt has at least 3 characters and the count is in
    [1, 9]. *)
Theorem endpoint_accepts (r : GenerateRequest) :
  Z.abs (parse_resolution (or_str (resolution r) default_resolution)) < 2 ^ 1021 ->
  ((exists images, api_generate r = ret images)
   <-> well_formed (prompt r) = true
       /\ 3 <= len (strip (prompt r)) /\ 1 <= count r <= 9).
Proof.
  intros Hb. split.
  - intros (images & E). unfold api_generate in E.
    destruct (schema_valid r) eqn:V; [|discriminate].
    apply schema_valid_iff in V. destruct V as (Hw & _ & Hc).
    split; [exact Hw|]. split; [|exact Hc].
    destruct (Z_lt_le_dec (len (strip (prompt r))) 3) as [S|L]; [|exact L].
    rewrite generate_images_short in E by assumption. discriminate.
  - intros (Hw & Hp & Hc). unfold api_generate.
    rewrite (proj2 (schema_valid_iff r))
      by (pose proof (strip_len (prompt r)); split; [exact Hw|lia]).
    rewrite generate_images_long by assumption.
    destruct (dimensions_total _ _
                (dict_get_ratios (or_str (aspect r) (lit "1:1"))) Hb)
      as (w & h & ->).
    eexists. reflexivity.
Qed.

Lemma endpoint_accepts_witness :
  (exists images, api_generate a_cat_request = ret images)
  <-> well_formed (prompt a_cat_request) = true
      /\ 3 <= len (strip (prompt a_cat_request))
      /\ 1 <= count a_cat_request <= 9.
Proof. apply endpoint_accepts. vm_compute. reflexivity. Defined.
